(** * The x-pack apm-server entry point: processor wiring and lifecycle

    A shallow embedding of [x-pack/apm-server/main.go]: the construction of
    the batch processors ([newProcessors], [newTailSamplingProcessor]), the
    process-wide storage singletons ([getBadgerDB], [getStorage]), the
    wrapping of the server ([wrapServer]) and the goroutine group that runs
    it ([runServerWithProcessors]).

    Go packages become modules, structs become records, package-level
    variables live in a [World] that every function threads, and a Go
    function returning [(T, error)] becomes a computation returning
    [result T].  A panic ends the computation. *)

From Stdlib Require Import PrimFloat ZArith Ascii.
From stdpp Require Import gmap strings list.

Local Open Scope Z_scope.
Local Set Warnings "-register-all,-inexact-float".

(** ** Errors ([github.com/pkg/errors]) *)

Inductive error : Type :=
| errors_New (msg : string)
| errors_Wrap (err : error) (msg : string).

(** [errors.Cause]: the innermost error of a chain of wraps. *)
Fixpoint errors_Cause (e : error) : error :=
  match e with
  | errors_New _ => e
  | errors_Wrap err _ => errors_Cause err
  end.

(** [errors.Wrapf(err, "error creating %s", name)]. *)
Definition errors_Wrapf_creating (err : error) (name : string) : error :=
  errors_Wrap err ("error creating " +:+ name).

Inductive result (T : Type) : Type :=
| Err (err : error)
| Ok (v : T).
Arguments Err {T} err.
Arguments Ok {T} v.

(** ** Configuration ([internal/beater/config], [internal/elasticsearch]) *)

(** [time.Duration] is an int64 count of nanoseconds. *)
Abbreviation Duration := Z (only parsing).

Module elasticsearch.
Record Config : Type := { CompressionLevel : Z }.
(** A client is an opaque handle handed out by the factory. *)
Record Client : Type := { handle : nat }.
End elasticsearch.

Module config.
Record PolicyService : Type := { ServiceName : string; ServiceEnvironment : string }.
Record PolicyTrace : Type := { TraceName : string; TraceOutcome : string }.
Record TailSamplingPolicy : Type := {
  Service : PolicyService;
  Trace : PolicyTrace;
  SampleRate : float;
}.
Record TailSamplingConfig : Type := {
  Enabled : bool;
  ESConfig : elasticsearch.Config;
  Interval : Duration;
  IngestRateDecayFactor : float;
  StorageGCInterval : Duration;
  TTL : Duration;
  StorageLimitParsed : Z;
  Policies : list TailSamplingPolicy;
}.
Record SamplingConfig : Type := { Tail : TailSamplingConfig }.
Record TransactionAggregationConfig : Type := {
  TxInterval : Duration;
  MaxTransactionGroups : Z;
  HDRHistogramSignificantFigures : Z;
}.
Record ServiceDestinationAggregationConfig : Type := {
  SdInterval : Duration;
  MaxGroups : Z;
}.
Record AggregationConfig : Type := {
  Transactions : TransactionAggregationConfig;
  ServiceDestinations : ServiceDestinationAggregationConfig;
}.
Record Config : Type := {
  Aggregation : AggregationConfig;
  Sampling : SamplingConfig;
  ShutdownTimeout : Duration;
}.
End config.

(** ** Storage handles ([badger], [eventstorage]) *)

(** A [*badger.DB]: [db_oid] is the identity of the object, so two handles
    are the same pointer exactly when they are equal. *)
Record BadgerDB : Type := { db_oid : nat; db_dir : string }.

(** An [eventstorage.Codec]: the JSON codec of the package, or any other
    implementation of the interface. *)
Inductive Codec : Type :=
| JSONCodec
| OtherCodec (h : nat).

(** The [*eventstorage.ShardedReadWriter] built by
    [eventstorage.New(db, codec).NewShardedReadWriter()]. *)
Record ShardedReadWriter : Type := {
  rw_oid : nat;
  rw_db : BadgerDB;
  rw_codec : Codec;
}.

(** ** Processor configurations ([txmetrics], [spanmetrics], [sampling])

    Each configuration holds the downstream [model.BatchProcessor]; the type
    of batch processors is defined below, so the records take it as a
    parameter. *)

Module txmetrics.
Record AggregatorConfig (BP : Type) : Type := {
  BatchProcessor : BP;
  MaxTransactionGroups : Z;
  MetricsInterval : Duration;
  HDRHistogramSignificantFigures : Z;
}.
Arguments BatchProcessor {BP} _.
Arguments MaxTransactionGroups {BP} _.
Arguments MetricsInterval {BP} _.
Arguments HDRHistogramSignificantFigures {BP} _.
End txmetrics.

Module spanmetrics.
Record AggregatorConfig (BP : Type) : Type := {
  BatchProcessor : BP;
  Interval : Duration;
  MaxGroups : Z;
}.
Arguments BatchProcessor {BP} _.
Arguments Interval {BP} _.
Arguments MaxGroups {BP} _.
End spanmetrics.

Module sampling.
Record PolicyCriteria : Type := {
  ServiceName : string;
  ServiceEnvironment : string;
  TraceName : string;
  TraceOutcome : string;
}.
Record Policy : Type := {
  Criteria : PolicyCriteria;
  SampleRate : float;
}.
Record LocalSamplingConfig : Type := {
  FlushInterval : Duration;
  MaxDynamicServices : Z;
  Policies : list Policy;
  IngestRateDecayFactor : float;
}.
Record DataStreamConfig : Type := {
  Type_ : string;
  Dataset : string;
  Namespace : string;
}.
Record RemoteSamplingConfig : Type := {
  CompressionLevel : Z;
  Elasticsearch : elasticsearch.Client;
  SampledTracesDataStream : DataStreamConfig;
}.
Record StorageConfig : Type := {
  DB : BadgerDB;
  Storage : ShardedReadWriter;
  StorageDir : string;
  StorageGCInterval : Duration;
  StorageLimit : Z;
  TTL : Duration;
}.
Record Config (BP : Type) : Type := {
  BeatID : string;
  BatchProcessor : BP;
  Local : LocalSamplingConfig;
  Remote : RemoteSamplingConfig;
  StorageCfg : StorageConfig;
}.
Arguments BeatID {BP} _.
Arguments BatchProcessor {BP} _.
Arguments Local {BP} _.
Arguments Remote {BP} _.
Arguments StorageCfg {BP} _.

(** The zero value of [Policy], as [make([]sampling.Policy, n)] fills it in. *)
Definition zeroPolicy : Policy :=
  {| Criteria := {| ServiceName := ""; ServiceEnvironment := "";
                    TraceName := ""; TraceOutcome := "" |};
     SampleRate := 0%float |}.
End sampling.

(** ** Processors and batch processors *)

(** The three implementations of the [processor] interface built by this
    file.  Each value is the object a constructor returned: its identity
    [oid] and the configuration it was built from. *)
Inductive processor (BP : Type) : Type :=
| TxAggregator (oid : nat) (cfg : txmetrics.AggregatorConfig BP)
| SpanAggregator (oid : nat) (cfg : spanmetrics.AggregatorConfig BP)
| SamplingProcessor (oid : nat) (cfg : sampling.Config BP).
Arguments TxAggregator {BP} oid cfg.
Arguments SpanAggregator {BP} oid cfg.
Arguments SamplingProcessor {BP} oid cfg.

Record namedProcessor (BP : Type) : Type := {
  processor_ : processor BP;
  name : string;
}.
Arguments processor_ {BP} _.
Arguments name {BP} _.

(** Values of the interface [model.BatchProcessor] that this file handles:
    the nil interface, a processor supplied by the caller (the publisher),
    a [namedProcessor], and a [modelprocessor.Chained] slice. *)
Inductive model_BatchProcessor : Type :=
| nilBatchProcessor
| External (h : nat)
| Named (p : namedProcessor model_BatchProcessor)
| Chained (c : list model_BatchProcessor).

Abbreviation Processor := (processor model_BatchProcessor).
Abbreviation NamedProcessor := (namedProcessor model_BatchProcessor).

(** [beater.RunServerFunc]: the caller's function, or the closure
    [wrappedRunServer] that [wrapServer] returns, which captures
    [runServer] and [processors]. *)
Inductive RunServerFunc : Type :=
| intakeServer (h : nat)
| wrappedRunServer (runServer : RunServerFunc) (processors : list NamedProcessor).

Record UUID : Type := { UUID_String : string }.

Module beater.
Record ServerParams : Type := {
  Config : config.Config;
  UUID_ : UUID;
  Namespace : string;
  BatchProcessor : model_BatchProcessor;
  NewElasticsearchClient : elasticsearch.Config -> result elasticsearch.Client;
}.
Definition with_BatchProcessor (bp : model_BatchProcessor) (args : ServerParams)
  : ServerParams :=
  {| Config := Config args; UUID_ := UUID_ args; Namespace := Namespace args;
     BatchProcessor := bp;
     NewElasticsearchClient := NewElasticsearchClient args |}.
End beater.

(** ** The process state *)

(** A variable of a monitoring registry.  [monitoring.NewFunc(reg, name,
    p.CollectMonitoring, monitoring.Report)] registers the method value of
    the processor [p]. *)
Inductive MonitoringVar : Type :=
| FuncVar (receiver : Processor).

Abbreviation Registry := (gmap string MonitoringVar).

(** Calls into collaborators that leave no other mark on the state, in the
    order in which they happen. *)
Inductive Event : Type :=
| EvInfof (what : string)
| EvNewElasticsearchClient (cfg : elasticsearch.Config)
| EvOpenBadger (storageDir : string) (valueLogFileSize : Z) (opened : option BadgerDB)
| EvNewStorage (built : ShardedReadWriter).

(** The package-level variables of [main.go] ([badgerDB], [storage] and the
    two monitoring registries), the data path of [paths], the number of
    objects allocated so far and the calls made so far.

    [samplingMonitoringRegistry] is the result of
    [monitoring.Default.GetRegistry], which is nil when the registry was
    not created; [aggregationMonitoringRegistry] comes from [NewRegistry]
    and always exists. *)
Record World : Type := {
  badgerDB : option BadgerDB;
  storage : option ShardedReadWriter;
  aggregationMonitoringRegistry : Registry;
  samplingMonitoringRegistry : option Registry;
  paths_Data : string;
  allocated : nat;
  trace : list Event;
}.

Definition with_badgerDB (v : option BadgerDB) (w : World) : World :=
  {| badgerDB := v; storage := storage w;
     aggregationMonitoringRegistry := aggregationMonitoringRegistry w;
     samplingMonitoringRegistry := samplingMonitoringRegistry w;
     paths_Data := paths_Data w; allocated := allocated w; trace := trace w |}.

Definition with_storage (v : option ShardedReadWriter) (w : World) : World :=
  {| badgerDB := badgerDB w; storage := v;
     aggregationMonitoringRegistry := aggregationMonitoringRegistry w;
     samplingMonitoringRegistry := samplingMonitoringRegistry w;
     paths_Data := paths_Data w; allocated := allocated w; trace := trace w |}.

Definition with_aggregationMonitoringRegistry (v : Registry) (w : World) : World :=
  {| badgerDB := badgerDB w; storage := storage w;
     aggregationMonitoringRegistry := v;
     samplingMonitoringRegistry := samplingMonitoringRegistry w;
     paths_Data := paths_Data w; allocated := allocated w; trace := trace w |}.

Definition with_samplingMonitoringRegistry (v : option Registry) (w : World) : World :=
  {| badgerDB := badgerDB w; storage := storage w;
     aggregationMonitoringRegistry := aggregationMonitoringRegistry w;
     samplingMonitoringRegistry := v;
     paths_Data := paths_Data w; allocated := allocated w; trace := trace w |}.

Definition with_allocated (v : nat) (w : World) : World :=
  {| badgerDB := badgerDB w; storage := storage w;
     aggregationMonitoringRegistry := aggregationMonitoringRegistry w;
     samplingMonitoringRegistry := samplingMonitoringRegistry w;
     paths_Data := paths_Data w; allocated := v; trace := trace w |}.

Definition with_trace (v : list Event) (w : World) : World :=
  {| badgerDB := badgerDB w; storage := storage w;
     aggregationMonitoringRegistry := aggregationMonitoringRegistry w;
     samplingMonitoringRegistry := samplingMonitoringRegistry w;
     paths_Data := paths_Data w; allocated := allocated w; trace := v |}.

(** ** Computations *)

Inductive Outcome (A : Type) : Type :=
| Panicked (reason : string)
| Returned (w : World) (a : A).
Arguments Panicked {A} reason.
Arguments Returned {A} w a.

Definition Go (A : Type) : Type := World -> Outcome A.

#[export] Instance Go_ret : MRet Go := fun A a w => Returned w a.

#[export] Instance Go_bind : MBind Go := fun A B f m w =>
  match m w with
  | Panicked reason => Panicked reason
  | Returned w' a => f a w'
  end.

#[export] Instance Go_fmap : FMap Go := fun A B f m => a ← m; mret (f a).

(** Reading and writing the package-level variables. *)
Definition get {A : Type} (f : World -> A) : Go A := fun w => Returned w (f w).
Definition modify (f : World -> World) : Go unit := fun w => Returned (f w) tt.

(** The next free object identity; taking it bumps the counter. *)
Definition new_object : Go nat := fun w =>
  Returned (with_allocated (S (allocated w)) w) (allocated w).

Definition record (ev : Event) : Go unit := fun w =>
  Returned (with_trace (trace w ++ [ev]) w) tt.

(** ** Collaborators

    What the environment decides: whether a constructor rejects its
    configuration and whether the storage directory can be opened.  The
    constructors themselves ([txmetrics.NewAggregator],
    [spanmetrics.NewAggregator], [sampling.NewProcessor],
    [eventstorage.OpenBadger]) are defined from these below; a successful
    call returns a fresh object that remembers its arguments. *)
Record Externals : Type := {
  txmetrics_invalid : txmetrics.AggregatorConfig model_BatchProcessor -> option error;
  spanmetrics_invalid : spanmetrics.AggregatorConfig model_BatchProcessor -> option error;
  sampling_invalid : sampling.Config model_BatchProcessor -> option error;
  badger_unavailable : string -> World -> option error;
}.

(** The two package-level registries. *)
Inductive RegistryVar : Type := aggregationRegistry | samplingRegistry.

(** [reg.Remove(name)]: a method call on a nil [*Registry] panics. *)
Definition Registry_Remove (reg : RegistryVar) (name : string) : Go unit := fun w =>
  match reg with
  | aggregationRegistry =>
      Returned (with_aggregationMonitoringRegistry
                  (delete name (aggregationMonitoringRegistry w)) w) tt
  | samplingRegistry =>
      match samplingMonitoringRegistry w with
      | None => Panicked "nil pointer dereference"
      | Some r => Returned (with_samplingMonitoringRegistry (Some (delete name r)) w) tt
      end
  end.

(** [monitoring.NewFunc(reg, name, f, monitoring.Report)]: registering a
    name that the registry already holds panics. *)
Definition monitoring_NewFunc (reg : RegistryVar) (name : string) (receiver : Processor)
  : Go unit := fun w =>
  match reg with
  | aggregationRegistry =>
      match aggregationMonitoringRegistry w !! name with
      | Some _ => Panicked ("name " +:+ name +:+ " already used")
      | None => Returned (with_aggregationMonitoringRegistry
                            (<[name := FuncVar receiver]> (aggregationMonitoringRegistry w)) w) tt
      end
  | samplingRegistry =>
      match samplingMonitoringRegistry w with
      | None => Panicked "nil pointer dereference"
      | Some r =>
          match r !! name with
          | Some _ => Panicked ("name " +:+ name +:+ " already used")
          | None => Returned (with_samplingMonitoringRegistry
                                (Some (<[name := FuncVar receiver]> r)) w) tt
          end
      end
  end.

(** *** Paths ([path/filepath], [elastic-agent-libs/paths])

    The file paths of a system whose separator is the slash. *)

(** The elements of a path: what stands between its separators. *)
Fixpoint path_elements (path : string) : list string :=
  match path with
  | EmptyString => [EmptyString]
  | String c rest =>
      if Ascii.eqb c "/"%char then EmptyString :: path_elements rest
      else
        match path_elements rest with
        | element :: elements => String c element :: elements
        | [] => [String c EmptyString]
        end
  end.

Definition filepath_IsAbs (path : string) : bool :=
  match path with
  | String c _ => Ascii.eqb c "/"%char
  | EmptyString => false
  end.

(** The loop of [filepath.Clean] over the elements of a path, with the
    elements written so far in [out], the last one first: an empty element
    and "." are skipped; ".." takes back the element before it, is kept at
    the front of a path that is not rooted, and is dropped at the root. *)
Fixpoint clean_elements (rooted : bool) (out elements : list string) : list string :=
  match elements with
  | [] => rev out
  | element :: rest =>
      if String.eqb element EmptyString || String.eqb element "." then
        clean_elements rooted out rest
      else if String.eqb element ".." then
        match out with
        | previous :: out' =>
            if String.eqb previous ".." then clean_elements rooted (element :: out) rest
            else clean_elements rooted out' rest
        | [] =>
            if rooted then clean_elements rooted out rest
            else clean_elements rooted [element] rest
        end
      else clean_elements rooted (element :: out) rest
  end.

(** [filepath.Clean(path)]: the shortest path that names the same file by
    the rules above; the empty path becomes ".". *)
Definition filepath_Clean (path : string) : string :=
  let rooted := filepath_IsAbs path in
  let out := clean_elements rooted [] (path_elements path) in
  if rooted then "/" +:+ String.concat "/" out
  else
    match out with
    | [] => "."
    | _ :: _ => String.concat "/" out
    end.

(** [filepath.Join(elem...)]: the elements from the first non-empty one on,
    put together with separators and cleaned; the empty string when there
    is none. *)
Fixpoint filepath_Join (elem : list string) : string :=
  match elem with
  | [] => EmptyString
  | e :: rest =>
      if String.eqb e EmptyString then filepath_Join rest
      else filepath_Clean (String.concat "/" elem)
  end.

(** [Paths.Resolve(Data, path)]: an absolute path is returned as it is, any
    other is joined to the data path. *)
Definition paths_Resolve (data path : string) : string :=
  if filepath_IsAbs path then path else filepath_Join [data; path].

(** [paths.Resolve(paths.Data, path)]. *)
Definition paths_Resolve_Data (path : string) : Go string := fun w =>
  Returned w (paths_Resolve (paths_Data w) path).

Definition tailSamplingStorageDir : string := "tail_sampling".

(** ** [main.go] *)

Section Main.
Context (env : Externals).

(** [args.Logger.Infof("creating %s with config: %+v", name, cfg)]. *)
Definition Logger_Infof_creating (what : string) : Go unit :=
  record (EvInfof ("creating " +:+ what)).

Definition txmetrics_NewAggregator
    (config : txmetrics.AggregatorConfig model_BatchProcessor) : Go (result Processor) :=
  match txmetrics_invalid env config with
  | Some err => mret (Err err)
  | None => oid ← new_object; mret (Ok (TxAggregator oid config))
  end.

Definition spanmetrics_NewAggregator
    (config : spanmetrics.AggregatorConfig model_BatchProcessor) : Go (result Processor) :=
  match spanmetrics_invalid env config with
  | Some err => mret (Err err)
  | None => oid ← new_object; mret (Ok (SpanAggregator oid config))
  end.

Definition sampling_NewProcessor
    (config : sampling.Config model_BatchProcessor) : Go (result Processor) :=
  match sampling_invalid env config with
  | Some err => mret (Err err)
  | None => oid ← new_object; mret (Ok (SamplingProcessor oid config))
  end.

Definition eventstorage_OpenBadger (storageDir : string) (valueLogFileSize : Z)
  : Go (result BadgerDB) :=
  failure ← get (badger_unavailable env storageDir);
  match failure with
  | Some err =>
      record (EvOpenBadger storageDir valueLogFileSize None);;
      mret (Err err)
  | None =>
      oid ← new_object;
      let db := {| db_oid := oid; db_dir := storageDir |} in
      record (EvOpenBadger storageDir valueLogFileSize (Some db));;
      mret (Ok db)
  end.

(** [eventstorage.New(db, eventCodec).NewShardedReadWriter()]. *)
Definition eventstorage_New_NewShardedReadWriter (db : BadgerDB) (eventCodec : Codec)
  : Go ShardedReadWriter :=
  oid ← new_object;
  let rw := {| rw_oid := oid; rw_db := db; rw_codec := eventCodec |} in
  record (EvNewStorage rw);;
  mret rw.

(** [args.NewElasticsearchClient(cfg)]. *)
Definition call_NewElasticsearchClient (args : beater.ServerParams)
    (cfg : elasticsearch.Config) : Go (result elasticsearch.Client) :=
  record (EvNewElasticsearchClient cfg);;
  mret (beater.NewElasticsearchClient args cfg).

(** [getBadgerDB].  The body runs under [badgerMu]. *)
Definition getBadgerDB (storageDir : string) : Go (result BadgerDB) :=
  global ← get badgerDB;
  match global with
  | None =>
      r ← eventstorage_OpenBadger storageDir (-1);
      match r with
      | Err err => mret (Err err)
      | Ok db => modify (with_badgerDB (Some db));; mret (Ok db)
      end
  | Some db => mret (Ok db)
  end.

(** [getStorage].  The body runs under [storageMu]. *)
Definition getStorage (db : BadgerDB) : Go ShardedReadWriter :=
  global ← get storage;
  match global with
  | None =>
      let eventCodec := JSONCodec in
      rw ← eventstorage_New_NewShardedReadWriter db eventCodec;
      modify (with_storage (Some rw));;
      mret rw
  | Some rw => mret rw
  end.

(** The body of the loop [for i, in := range tailSamplingConfig.Policies]. *)
Definition policy_of (in_ : config.TailSamplingPolicy) : sampling.Policy :=
  {| sampling.Criteria :=
       {| sampling.ServiceName := config.ServiceName (config.Service in_);
          sampling.ServiceEnvironment := config.ServiceEnvironment (config.Service in_);
          sampling.TraceName := config.TraceName (config.Trace in_);
          sampling.TraceOutcome := config.TraceOutcome (config.Trace in_) |};
     sampling.SampleRate := config.SampleRate in_ |}.

(** The loop itself, from index [i] on: [policies[i] = ...]. *)
Fixpoint range_Policies (i : nat) (ins : list config.TailSamplingPolicy)
    (policies : list sampling.Policy) : list sampling.Policy :=
  match ins with
  | [] => policies
  | in_ :: rest => range_Policies (S i) rest (<[i := policy_of in_]> policies)
  end.

(** The literal [sampling.Config{...}] of [newTailSamplingProcessor]. *)
Definition sampling_Config_literal (args : beater.ServerParams)
    (es : elasticsearch.Client) (badgerDB : BadgerDB) (readWriters : ShardedReadWriter)
    (storageDir : string) (policies : list sampling.Policy)
  : sampling.Config model_BatchProcessor :=
  let tailSamplingConfig := config.Tail (config.Sampling (beater.Config args)) in
  {| sampling.BeatID := UUID_String (beater.UUID_ args);
     sampling.BatchProcessor := beater.BatchProcessor args;
     sampling.Local :=
       {| sampling.FlushInterval := config.Interval tailSamplingConfig;
          sampling.MaxDynamicServices := 1000;
          sampling.Policies := policies;
          sampling.IngestRateDecayFactor :=
            config.IngestRateDecayFactor tailSamplingConfig |};
     sampling.Remote :=
       {| sampling.CompressionLevel :=
            elasticsearch.CompressionLevel (config.ESConfig tailSamplingConfig);
          sampling.Elasticsearch := es;
          sampling.SampledTracesDataStream :=
            {| sampling.Type_ := "traces";
               sampling.Dataset := "apm.sampled";
               sampling.Namespace := beater.Namespace args |} |};
     sampling.StorageCfg :=
       {| sampling.DB := badgerDB;
          sampling.Storage := readWriters;
          sampling.StorageDir := storageDir;
          sampling.StorageGCInterval := config.StorageGCInterval tailSamplingConfig;
          sampling.StorageLimit := config.StorageLimitParsed tailSamplingConfig;
          sampling.TTL := config.TTL tailSamplingConfig |} |}.

Definition newTailSamplingProcessor (args : beater.ServerParams) : Go (result Processor) :=
  let tailSamplingConfig := config.Tail (config.Sampling (beater.Config args)) in
  r ← call_NewElasticsearchClient args (config.ESConfig tailSamplingConfig);
  match r with
  | Err err =>
      mret (Err (errors_Wrap err "failed to create Elasticsearch client for tail-sampling"))
  | Ok es =>
      storageDir ← paths_Resolve_Data tailSamplingStorageDir;
      r ← getBadgerDB storageDir;
      match r with
      | Err err =>
          (* badgerDB, err = getBadgerDB(storageDir) stored nil *)
          modify (with_badgerDB None);;
          mret (Err (errors_Wrap err "failed to get Badger database"))
      | Ok db =>
          (* badgerDB, err = getBadgerDB(storageDir) stored the handle *)
          modify (with_badgerDB (Some db));;
          readWriters ← getStorage db;
          let policies :=
            range_Policies 0 (config.Policies tailSamplingConfig)
              (replicate (length (config.Policies tailSamplingConfig)) sampling.zeroPolicy) in
          sampling_NewProcessor
            (sampling_Config_literal args es db readWriters storageDir policies)
      end
  end.

Definition txName : string := "transaction metrics aggregation".
Definition spanName : string := "service destinations aggregation".
Definition samplerName : string := "tail sampler".

(** The literal [txmetrics.AggregatorConfig{...}] of [newProcessors]. *)
Definition txmetrics_AggregatorConfig_literal (args : beater.ServerParams)
  : txmetrics.AggregatorConfig model_BatchProcessor :=
  {| txmetrics.BatchProcessor := beater.BatchProcessor args;
     txmetrics.MaxTransactionGroups :=
       config.MaxTransactionGroups
         (config.Transactions (config.Aggregation (beater.Config args)));
     txmetrics.MetricsInterval :=
       config.TxInterval
         (config.Transactions (config.Aggregation (beater.Config args)));
     txmetrics.HDRHistogramSignificantFigures :=
       config.HDRHistogramSignificantFigures
         (config.Transactions (config.Aggregation (beater.Config args))) |}.

(** The literal [spanmetrics.AggregatorConfig{...}] of [newProcessors]. *)
Definition spanmetrics_AggregatorConfig_literal (args : beater.ServerParams)
  : spanmetrics.AggregatorConfig model_BatchProcessor :=
  {| spanmetrics.BatchProcessor := beater.BatchProcessor args;
     spanmetrics.Interval :=
       config.SdInterval
         (config.ServiceDestinations (config.Aggregation (beater.Config args)));
     spanmetrics.MaxGroups :=
       config.MaxGroups
         (config.ServiceDestinations (config.Aggregation (beater.Config args))) |}.

Definition newProcessors (args : beater.ServerParams) : Go (result (list NamedProcessor)) :=
  let processors : list NamedProcessor := [] in
  Logger_Infof_creating txName;;
  r ← txmetrics_NewAggregator (txmetrics_AggregatorConfig_literal args);
  match r with
  | Err err => mret (Err (errors_Wrapf_creating err txName))
  | Ok agg =>
      let processors := processors ++ [{| name := txName; processor_ := agg |}] in
      Registry_Remove aggregationRegistry "txmetrics";;
      monitoring_NewFunc aggregationRegistry "txmetrics" agg;;
      Logger_Infof_creating spanName;;
      r ← spanmetrics_NewAggregator (spanmetrics_AggregatorConfig_literal args);
      match r with
      | Err err => mret (Err (errors_Wrapf_creating err spanName))
      | Ok spanAggregator =>
          let processors :=
            processors ++ [{| name := spanName; processor_ := spanAggregator |}] in
          if config.Enabled (config.Tail (config.Sampling (beater.Config args))) then
            r ← newTailSamplingProcessor args;
            match r with
            | Err err => mret (Err (errors_Wrapf_creating err samplerName))
            | Ok sampler =>
                Registry_Remove samplingRegistry "tail";;
                monitoring_NewFunc samplingRegistry "tail" sampler;;
                let processors :=
                  processors ++ [{| name := samplerName; processor_ := sampler |}] in
                mret (Ok processors)
            end
          else mret (Ok processors)
      end
  end.

(** The loop [for i, p := range processors { processorChain[i] = p }]. *)
Fixpoint range_processors (i : nat) (processors : list NamedProcessor)
    (processorChain : list model_BatchProcessor) : list model_BatchProcessor :=
  match processors with
  | [] => processorChain
  | p :: rest => range_processors (S i) rest (<[i := Named p]> processorChain)
  end.

Definition wrapServer (args : beater.ServerParams) (runServer : RunServerFunc)
  : Go (result (beater.ServerParams * RunServerFunc)) :=
  r ← newProcessors args;
  match r with
  | Err err => mret (Err err)
  | Ok processors =>
      let processorChain := replicate (length processors + 1) nilBatchProcessor in
      let processorChain := range_processors 0 processors processorChain in
      let processorChain :=
        <[length processors := beater.BatchProcessor args]> processorChain in
      let args := beater.with_BatchProcessor (Chained processorChain) args in
      mret (Ok (args, wrappedRunServer runServer processors))
  end.

End Main.

(** ** [runServerWithProcessors]

    The function starts, in an [errgroup.Group] [g] with context [ctx], two
    goroutines per processor and one for the server, and waits for them:

    - the run goroutine of [p] returns what [p.Run()] returns;
    - the stop goroutine of [p] receives from [serverStopped], builds
      [stopctx] and returns what [p.Stop(stopctx)] returns;
    - the server goroutine returns what [runServer(ctx, args)] returns,
      closing [serverStopped] on the way out.

    When the calls into the processors and the server return, and with what,
    is up to them and to the scheduler: a [Move] is one such choice, a
    schedule is a list of moves, and [step] is what the code of the
    goroutine that moves does.

    A function passed to [g.Go] returns to the wrapper that [errgroup] runs
    it in: [if err := f(); err != nil { g.errOnce.Do(...) }], then
    [g.done()].  The return of the function and what the wrapper does with
    the error are two moves, and other goroutines can move in between: the
    deferred [close(serverStopped)] is part of the first, the entry in
    [g.err] and the cancellation of [ctx] are the second. *)

(** The context passed to [p.Stop]. *)
Inductive StopContext : Type :=
| context_Background
| context_WithTimeout (timeout : Duration).

Definition stopctx (args : beater.ServerParams) : StopContext :=
  if bool_decide (config.ShutdownTimeout (beater.Config args) > 0)
  then context_WithTimeout (config.ShutdownTimeout (beater.Config args))
  else context_Background.

Inductive StopPc : Type :=
| StopBlocked    (* at [<-serverStopped] *)
| StopCalling    (* inside [p.Stop(stopctx)] *)
| StopExited.

(** The goroutines of the group, by the function they run. *)
Inductive Goroutine : Type :=
| RunOf (i : nat)     (* calls [p.Run()] of the processor at index [i] *)
| StopOf (i : nat)    (* calls [p.Stop(stopctx)] of the processor at index [i] *)
| ServerOf.           (* calls [runServer(ctx, args)] *)

#[global] Instance error_eq_dec : EqDecision error.
Proof. solve_decision. Defined.

#[global] Instance Goroutine_eq_dec : EqDecision Goroutine.
Proof. solve_decision. Defined.

Inductive Move : Type :=
| RunReturns (i : nat) (err : option error)
| ServerReturns (err : option error)
| StopProceeds (i : nat)
| StopReturns (i : nat) (err : option error)
| GroupRecords (who : Goroutine) (err : option error)
| ParentCancels.

(** What an observer of the processors and the server sees. *)
Inductive Observation : Type :=
| ObsRunReturned (i : nat) (err : option error)
| ObsServerReturned (err : option error)
| ObsStop (i : nat) (ctx : StopContext)
| ObsStopReturned (i : nat) (err : option error).

Record Group : Type := {
  g_err : option error;        (* [g.err], set once *)
  ctx_cancelled : bool;        (* [ctx.Done()] is closed *)
  serverStopped : bool;        (* the channel is closed *)
  server_exited : bool;        (* the function of the server goroutine has returned *)
  run_exited : list bool;      (* per processor: the function has returned *)
  stop_pc : list StopPc;       (* per processor *)
  returned : list (Goroutine * option error);
                               (* functions that have returned, with what they
                                  returned, and whose wrapper has yet to run *)
  observed : list Observation;
}.

(** The state after the [g.Go] calls: every goroutine is running. *)
Definition spawn (processors : list NamedProcessor) : Group :=
  {| g_err := None; ctx_cancelled := false; serverStopped := false;
     server_exited := false;
     run_exited := replicate (length processors) false;
     stop_pc := replicate (length processors) StopBlocked;
     returned := [];
     observed := [] |}.

(** [errgroup], [g.errOnce.Do]: the first non-nil error to arrive is stored
    in [g.err] and [ctx] is cancelled; later errors are dropped. *)
Definition finish (err : option error) (g : Group) : Group :=
  match err, g_err g with
  | Some e, None =>
      {| g_err := Some e; ctx_cancelled := true; serverStopped := serverStopped g;
         server_exited := server_exited g; run_exited := run_exited g;
         stop_pc := stop_pc g; returned := returned g; observed := observed g |}
  | _, _ => g
  end.

Definition observe (o : Observation) (g : Group) : Group :=
  {| g_err := g_err g; ctx_cancelled := ctx_cancelled g; serverStopped := serverStopped g;
     server_exited := server_exited g; run_exited := run_exited g;
     stop_pc := stop_pc g; returned := returned g; observed := observed g ++ [o] |}.

Definition with_run_exited (i : nat) (g : Group) : Group :=
  {| g_err := g_err g; ctx_cancelled := ctx_cancelled g; serverStopped := serverStopped g;
     server_exited := server_exited g; run_exited := <[i := true]> (run_exited g);
     stop_pc := stop_pc g; returned := returned g; observed := observed g |}.

Definition with_stop_pc (i : nat) (pc : StopPc) (g : Group) : Group :=
  {| g_err := g_err g; ctx_cancelled := ctx_cancelled g; serverStopped := serverStopped g;
     server_exited := server_exited g; run_exited := run_exited g;
     stop_pc := <[i := pc]> (stop_pc g); returned := returned g; observed := observed g |}.

Definition with_returned (l : list (Goroutine * option error)) (g : Group) : Group :=
  {| g_err := g_err g; ctx_cancelled := ctx_cancelled g; serverStopped := serverStopped g;
     server_exited := server_exited g; run_exited := run_exited g;
     stop_pc := stop_pc g; returned := l; observed := observed g |}.

(** The function of the goroutine [who] returns [err] to its wrapper. *)
Definition return_to_group (who : Goroutine) (err : option error) (g : Group) : Group :=
  with_returned (returned g ++ [(who, err)]) g.

(** The server goroutine on its way out: [defer close(serverStopped)]. *)
Definition close_serverStopped (g : Group) : Group :=
  {| g_err := g_err g; ctx_cancelled := ctx_cancelled g; serverStopped := true;
     server_exited := true; run_exited := run_exited g;
     stop_pc := stop_pc g; returned := returned g; observed := observed g |}.

Definition cancel_ctx (g : Group) : Group :=
  {| g_err := g_err g; ctx_cancelled := true; serverStopped := serverStopped g;
     server_exited := server_exited g; run_exited := run_exited g;
     stop_pc := stop_pc g; returned := returned g; observed := observed g |}.

(** One move; [None] when the goroutine cannot make it in this state. *)
Definition step (args : beater.ServerParams) (m : Move) (g : Group) : option Group :=
  match m with
  | RunReturns i err =>
      match run_exited g !! i with
      | Some false =>
          Some (return_to_group (RunOf i) err
                  (observe (ObsRunReturned i err) (with_run_exited i g)))
      | _ => None
      end
  | ServerReturns err =>
      if server_exited g then None
      else Some (return_to_group ServerOf err
                   (observe (ObsServerReturned err) (close_serverStopped g)))
  | StopProceeds i =>
      match stop_pc g !! i with
      | Some StopBlocked =>
          if serverStopped g
          then Some (observe (ObsStop i (stopctx args)) (with_stop_pc i StopCalling g))
          else None
      | _ => None
      end
  | StopReturns i err =>
      match stop_pc g !! i with
      | Some StopCalling =>
          Some (return_to_group (StopOf i) err
                  (observe (ObsStopReturned i err) (with_stop_pc i StopExited g)))
      | _ => None
      end
  | GroupRecords who err =>
      (* the wrapper of [who], whose function returned [err]; a function
         returns once, so its entry is there once *)
      if bool_decide ((who, err) ∈ returned g)
      then Some (finish err (with_returned (filter (.≠ (who, err)) (returned g)) g))
      else None
  | ParentCancels => Some (cancel_ctx g)
  end.

Fixpoint run (args : beater.ServerParams) (schedule : list Move) (g : Group) : option Group :=
  match schedule with
  | [] => Some g
  | m :: rest =>
      match step args m g with
      | Some g' => run args rest g'
      | None => None
      end
  end.

(** Every function has returned and every wrapper has run: the counter of
    [g.wg] is back at zero. *)
Definition all_exited (g : Group) : bool :=
  match returned g with [] => true | _ :: _ => false end
  && server_exited g
  && forallb (fun b : bool => b) (run_exited g)
  && forallb (fun pc => match pc with StopExited => true | _ => false end) (stop_pc g).

(** [g.Wait()]: once every goroutine is done, the stored error. *)
Definition Wait (g : Group) : option (option error) :=
  if all_exited g then Some (g_err g) else None.

(** The moves of a schedule other than cancellations by the caller. *)
Definition returns_of (schedule : list Move) : list Move :=
  omap (fun m => match m with ParentCancels => None | _ => Some m end) schedule.

(** The value [runServerWithProcessors] returns under a schedule, [None]
    when the schedule is not one of its complete executions.  Without
    processors it is a plain call of [runServer], with no group: whatever
    the caller does to its context meanwhile, the result is what the server
    returns. *)
Definition runServerWithProcessors (args : beater.ServerParams)
    (processors : list NamedProcessor) (schedule : list Move) : option (option error) :=
  match processors with
  | [] =>
      match returns_of schedule with
      | [ServerReturns err] => Some err
      | _ => None
      end
  | _ :: _ => g ← run args schedule (spawn processors); Wait g
  end.

(** The indices of the processors in the order in which their [Stop] was
    called. *)
Definition stop_order (g : Group) : list nat :=
  omap (fun o => match o with ObsStop i _ => Some i | _ => None end) (observed g).

(** ** The chain at work *)

Section Chain.
Context {Batch State : Type}.

(** What one link of a chain does with the batch it is given: the batch
    (mutated in place in the program) and whatever state the links keep. *)
Context (ProcessBatch : model_BatchProcessor -> State -> Batch -> State * Batch).

(** Modelled from the spec: [modelprocessor.Chained.ProcessBatch], whose
    source is not part of [main.go].  "A Chain wraps an ordered list of
    batch processors and forwards the batch through each; each processor
    sees the batch after earlier processors mutated it."  The result is
    the final state and batch, and the links in the order in which they
    ran, each with the batch it was handed. *)
Fixpoint Chained_ProcessBatch (c : list model_BatchProcessor) (s : State) (batch : Batch)
  : State * Batch * list (model_BatchProcessor * Batch) :=
  match c with
  | [] => (s, batch, [])
  | p :: rest =>
      let '(s', batch') := ProcessBatch p s batch in
      let '(s'', batch'', seen) := Chained_ProcessBatch rest s' batch' in
      (s'', batch'', (p, batch) :: seen)
  end.
End Chain.

(** ** Monitoring snapshots *)

(** Modelled from the spec: the names that [CollectMonitoring] of each
    processor reports, whose source is not part of [main.go].  "Metric
    registry apm-server.aggregation.txmetrics: {active_groups, overflowed,
    flushes}", and likewise for the service destinations and for
    "apm-server.sampling.tail". *)
Definition CollectMonitoring (p : Processor) : list string :=
  match p with
  | TxAggregator _ _ => ["active_groups"; "overflowed"; "flushes"]
  | SpanAggregator _ _ => ["active_groups"; "overflowed"; "flushes"]
  | SamplingProcessor _ _ =>
      ["events_processed"; "events_dropped"; "events_stored"; "traces_sampled";
       "traces_unsampled"; "storage_lsm_size"; "storage_value_log_size";
       "dynamic_service_groups"]
  end.

(** [monitoring.CollectFlatSnapshot(reg, monitoring.Full, false)], reduced
    to the names it holds: every variable of the registry reports its
    metrics under its own name. *)
Definition CollectFlatSnapshot (reg : Registry) : list string :=
  '(name, v) ← map_to_list reg;
  match v with
  | FuncVar receiver => (fun metric => name +:+ "." +:+ metric) <$> CollectMonitoring receiver
  end.

(** Modelled from the spec: the name of a data stream, "addressed by
    type-dataset-namespace". *)
Definition DataStream_name (ds : sampling.DataStreamConfig) : string :=
  sampling.Type_ ds +:+ "-" +:+ sampling.Dataset ds +:+ "-" +:+ sampling.Namespace ds.

(** ** Storage singletons over a run of the process *)

(** The databases opened and the storage facades built so far. *)
Definition opened_databases (w : World) : list BadgerDB :=
  omap (fun ev => match ev with EvOpenBadger _ _ opened => opened | _ => None end) (trace w).

Definition built_storages (w : World) : list ShardedReadWriter :=
  omap (fun ev => match ev with EvNewStorage built => Some built | _ => None end) (trace w).

(** The package-level variables account for everything opened and built:
    nothing when they are nil, exactly their value otherwise.  It holds
    when the process starts. *)
Definition singletons (w : World) : Prop :=
  opened_databases w = option_list (badgerDB w) /\
  built_storages w = option_list (storage w).

(** What a state keeps of an earlier one: the package-level variables,
    once set, stay as they are, and a storage facade that appears in
    between uses the JSON codec. *)
Definition keeps (w w' : World) : Prop :=
  (forall db, badgerDB w = Some db -> badgerDB w' = Some db) /\
  (forall rw, storage w = Some rw -> storage w' = Some rw) /\
  (storage w = None -> forall rw, storage w' = Some rw -> rw_codec rw = JSONCodec).

(** The storage functions leave the registries and the data path alone. *)
Definition same_registries (w w' : World) : Prop :=
  aggregationMonitoringRegistry w' = aggregationMonitoringRegistry w /\
  samplingMonitoringRegistry w' = samplingMonitoringRegistry w /\
  paths_Data w' = paths_Data w.

(** A use of the storage functions by the rest of the process. *)
Inductive StorageCall : Type :=
| CallGetBadgerDB (storageDir : string)
| CallGetStorage (db : BadgerDB)
| CallNewTailSamplingProcessor (args : beater.ServerParams).

Inductive StorageAnswer : Type :=
| GotBadgerDB (r : result BadgerDB)
| GotStorage (rw : ShardedReadWriter)
| GotSampler (r : result Processor).

Definition storage_call (env : Externals) (c : StorageCall) : Go StorageAnswer :=
  match c with
  | CallGetBadgerDB storageDir => GotBadgerDB <$> getBadgerDB env storageDir
  | CallGetStorage db => GotStorage <$> getStorage db
  | CallNewTailSamplingProcessor args => GotSampler <$> newTailSamplingProcessor env args
  end.

Fixpoint storage_calls (env : Externals) (cs : list StorageCall) : Go (list StorageAnswer) :=
  match cs with
  | [] => mret []
  | c :: rest =>
      a ← storage_call env c;
      answers ← storage_calls env rest;
      mret (a :: answers)
  end.

(** The database and the storage facade an answer hands out, if any. *)
Definition answer_db (a : StorageAnswer) : option BadgerDB :=
  match a with
  | GotBadgerDB (Ok db) => Some db
  | GotSampler (Ok (SamplingProcessor _ cfg)) => Some (sampling.DB (sampling.StorageCfg cfg))
  | _ => None
  end.

Definition answer_storage (a : StorageAnswer) : option ShardedReadWriter :=
  match a with
  | GotStorage rw => Some rw
  | GotSampler (Ok (SamplingProcessor _ cfg)) =>
      Some (sampling.Storage (sampling.StorageCfg cfg))
  | _ => None
  end.

(** ** A concrete process

    The setting of [TestMonitoring]: a fresh process whose sampling
    registry exists, tail sampling enabled with the single policy
    [{SampleRate: 0.1}], the namespace "default", a publisher that is not
    itself a chain, and collaborators that accept what they are given. *)

Definition accepting : Externals :=
  {| txmetrics_invalid := fun _ => None;
     spanmetrics_invalid := fun _ => None;
     sampling_invalid := fun _ => None;
     badger_unavailable := fun _ _ => None |}.

Definition fresh_process : World :=
  {| badgerDB := None; storage := None;
     aggregationMonitoringRegistry := ∅;
     samplingMonitoringRegistry := Some ∅;
     paths_Data := "home/data"; allocated := 0; trace := [] |}.

Definition example_policy : config.TailSamplingPolicy :=
  {| config.Service := {| config.ServiceName := ""; config.ServiceEnvironment := "" |};
     config.Trace := {| config.TraceName := ""; config.TraceOutcome := "" |};
     config.SampleRate := 0.1%float |}.

Definition example_config (tail_enabled : bool) : config.Config :=
  {| config.Aggregation :=
       {| config.Transactions :=
            {| config.TxInterval := 60000000000;
               config.MaxTransactionGroups := 10000;
               config.HDRHistogramSignificantFigures := 2 |};
          config.ServiceDestinations :=
            {| config.SdInterval := 60000000000; config.MaxGroups := 10000 |} |};
     config.Sampling :=
       {| config.Tail :=
            {| config.Enabled := tail_enabled;
               config.ESConfig := {| elasticsearch.CompressionLevel := 5 |};
               config.Interval := 60000000000;
               config.IngestRateDecayFactor := 0.25%float;
               config.StorageGCInterval := 300000000000;
               config.TTL := 1800000000000;
               config.StorageLimitParsed := 3000000000;
               config.Policies := [example_policy] |} |};
     config.ShutdownTimeout := 5000000000 |}.

Definition example_args (tail_enabled : bool) : beater.ServerParams :=
  {| beater.Config := example_config tail_enabled;
     beater.UUID_ := {| UUID_String := "2b0e7c4e-7f0b-4d6a-9d7b-0c1f2e3a4b5c" |};
     beater.Namespace := "default";
     beater.BatchProcessor := External 0;
     beater.NewElasticsearchClient := fun _ => Ok {| elasticsearch.handle := 0 |} |}.

(** The processors [newProcessors] builds in that process. *)
Definition example_processors : list NamedProcessor :=
  match newProcessors accepting (example_args true) fresh_process with
  | Returned _ (Ok processors) => processors
  | _ => []
  end.

(** Collaborators of which one rejects its configuration. *)
Definition rejecting_txmetrics : Externals :=
  {| txmetrics_invalid := fun _ => Some (errors_New "invalid aggregator config");
     spanmetrics_invalid := fun _ => None;
     sampling_invalid := fun _ => None;
     badger_unavailable := fun _ _ => None |}.

Definition unavailable_storage : Externals :=
  {| txmetrics_invalid := fun _ => None;
     spanmetrics_invalid := fun _ => None;
     sampling_invalid := fun _ => None;
     badger_unavailable := fun _ _ => Some (errors_New "cannot open directory") |}.

(** Modelled from the spec: collaborators that validate what they are
    handed, by the row [ConfigInvalid] of the error table (a policy with a
    sample rate outside [0, 1], an interval or a number of groups that is
    not positive); every directory can be opened. *)
Definition validating : Externals :=
  {| txmetrics_invalid := fun cfg =>
       if txmetrics.MetricsInterval cfg <=? 0
       then Some (errors_New "MetricsInterval unspecified or negative")
       else if txmetrics.MaxTransactionGroups cfg <=? 0
       then Some (errors_New "MaxTransactionGroups unspecified or negative")
       else None;
     spanmetrics_invalid := fun cfg =>
       if spanmetrics.Interval cfg <=? 0
       then Some (errors_New "Interval unspecified or negative")
       else if spanmetrics.MaxGroups cfg <=? 0
       then Some (errors_New "MaxGroups unspecified or negative")
       else None;
     sampling_invalid := fun cfg =>
       if sampling.FlushInterval (sampling.Local cfg) <=? 0
       then Some (errors_New "FlushInterval unspecified or negative")
       else if forallb (fun p => PrimFloat.leb 0 (sampling.SampleRate p)
                                 && PrimFloat.leb (sampling.SampleRate p) 1)
                 (sampling.Policies (sampling.Local cfg))
       then None
       else Some (errors_New "Policy: SampleRate unspecified or out of range");
     badger_unavailable := fun _ _ => None |}.

(** The parameters of the example with a second policy whose sample rate,
    1.5, is out of range. *)
Definition out_of_range_policy : config.TailSamplingPolicy :=
  {| config.Service := {| config.ServiceName := "checkout";
                          config.ServiceEnvironment := "production" |};
     config.Trace := {| config.TraceName := ""; config.TraceOutcome := "" |};
     config.SampleRate := 1.5%float |}.

Definition out_of_range_args : beater.ServerParams :=
  {| beater.Config :=
       {| config.Aggregation := config.Aggregation (example_config true);
          config.Sampling :=
            {| config.Tail :=
                 {| config.Enabled := true;
                    config.ESConfig := {| elasticsearch.CompressionLevel := 5 |};
                    config.Interval := 60000000000;
                    config.IngestRateDecayFactor := 0.25%float;
                    config.StorageGCInterval := 300000000000;
                    config.TTL := 1800000000000;
                    config.StorageLimitParsed := 3000000000;
                    config.Policies := [example_policy; out_of_range_policy] |} |};
          config.ShutdownTimeout := 5000000000 |};
     beater.UUID_ := beater.UUID_ (example_args true);
     beater.Namespace := "default";
     beater.BatchProcessor := External 0;
     beater.NewElasticsearchClient := fun _ => Ok {| elasticsearch.handle := 0 |} |}.

(** ** Milestones of [newProcessors]

    The states [newProcessors] passes through from a state [w] while the
    constructors accept: after the transaction aggregator is built and
    registered and the next line is logged, and after the service
    destinations aggregator is built as well. *)

Definition tx_aggregator (args : beater.ServerParams) (w : World) : NamedProcessor :=
  {| name := txName;
     processor_ := TxAggregator (allocated w) (txmetrics_AggregatorConfig_literal args) |}.

Definition span_aggregator (args : beater.ServerParams) (w : World) : NamedProcessor :=
  {| name := spanName;
     processor_ :=
       SpanAggregator (S (allocated w)) (spanmetrics_AggregatorConfig_literal args) |}.

Definition tx_aggregator_registered (args : beater.ServerParams) (w : World) : World :=
  {| badgerDB := badgerDB w; storage := storage w;
     aggregationMonitoringRegistry :=
       <["txmetrics" := FuncVar (processor_ (tx_aggregator args w))]>
         (delete "txmetrics" (aggregationMonitoringRegistry w));
     samplingMonitoringRegistry := samplingMonitoringRegistry w;
     paths_Data := paths_Data w;
     allocated := S (allocated w);
     trace := (trace w ++ [EvInfof ("creating " +:+ txName)])
                ++ [EvInfof ("creating " +:+ spanName)] |}.

Definition aggregators_built (args : beater.ServerParams) (w : World) : World :=
  with_allocated (S (S (allocated w))) (tx_aggregator_registered args w).

(** Inside [newTailSamplingProcessor], called in the state [w]: the
    storage directory, the state in which [getBadgerDB] is called, the
    database and the storage the function goes on with (the ones of the
    variables when they are set, fresh ones otherwise), and the literal it
    hands to [sampling.NewProcessor] once a client [es] has been created. *)

Definition tail_storageDir (w : World) : string :=
  paths_Resolve (paths_Data w) tailSamplingStorageDir.

Definition client_created (args : beater.ServerParams) (w : World) : World :=
  with_trace
    (trace w ++ [EvNewElasticsearchClient
                   (config.ESConfig (config.Tail (config.Sampling (beater.Config args))))])
    w.

Definition tail_database (w : World) : BadgerDB :=
  match badgerDB w with
  | Some db => db
  | None => {| db_oid := allocated w; db_dir := tail_storageDir w |}
  end.

Definition tail_storage (w : World) : ShardedReadWriter :=
  match storage w with
  | Some rw => rw
  | None =>
      {| rw_oid := match badgerDB w with
                   | Some _ => allocated w
                   | None => S (allocated w)
                   end;
         rw_db := tail_database w;
         rw_codec := JSONCodec |}
  end.

Definition sampler_config (args : beater.ServerParams) (es : elasticsearch.Client)
    (w : World) : sampling.Config model_BatchProcessor :=
  let tailSamplingConfig := config.Tail (config.Sampling (beater.Config args)) in
  sampling_Config_literal args es (tail_database w) (tail_storage w) (tail_storageDir w)
    (range_Policies 0 (config.Policies tailSamplingConfig)
       (replicate (length (config.Policies tailSamplingConfig)) sampling.zeroPolicy)).

(** The storage directory can be opened at the moment [getBadgerDB] needs
    it: nothing is asked of the directory when the database is open. *)
Definition storage_opens (env : Externals) (args : beater.ServerParams) (w : World) : Prop :=
  badgerDB w = None ->
  badger_unavailable env (tail_storageDir w) (client_created args w) = None.

(** The collaborators accept what [args] makes [newProcessors] hand them:
    the two aggregator configurations are valid, the Elasticsearch client
    can be created, and neither the storage directory nor the sampler's
    configuration is refused. *)
Definition accepts (env : Externals) (args : beater.ServerParams) : Prop :=
  txmetrics_invalid env (txmetrics_AggregatorConfig_literal args) = None /\
  spanmetrics_invalid env (spanmetrics_AggregatorConfig_literal args) = None /\
  (exists es,
     beater.NewElasticsearchClient args
       (config.ESConfig (config.Tail (config.Sampling (beater.Config args)))) = Ok es) /\
  (forall storageDir w, badger_unavailable env storageDir w = None) /\
  (forall c, sampling_invalid env c = None).

(** [newProcessors] and [wrapServer] both return the error [e]: no
    processors, no wrapped server. *)
Definition refused (env : Externals) (args : beater.ServerParams)
    (runServer : RunServerFunc) (w : World) (e : error) : Prop :=
  exists w',
    newProcessors env args w = Returned w' (Err e) /\
    wrapServer env args runServer w = Returned w' (Err e).

(** ** Orders of events in a run of the group *)

(** Every call of a [Stop] comes after the server has returned. *)
Definition stops_after_server (obs : list Observation) : Prop :=
  forall before after i ctx,
    obs = before ++ ObsStop i ctx :: after ->
    exists err, ObsServerReturned err ∈ before.

(** The stop order "root to leaves" of the [n] processors of a chain: when
    the [Stop] of a processor is called, the [Stop] of every processor
    after it in the chain has been called already, so the sampler (the
    last) is stopped before the aggregators. *)
Definition stops_root_to_leaves (n : nat) (order : list nat) : Prop :=
  forall before after i,
    order = before ++ i :: after ->
    forall j, (i < j < n)%nat -> j ∈ before.

(** What a move makes a function return to its wrapper. *)
Definition return_of (m : Move) : option (Goroutine * option error) :=
  match m with
  | RunReturns i err => Some (RunOf i, err)
  | ServerReturns err => Some (ServerOf, err)
  | StopReturns i err => Some (StopOf i, err)
  | StopProceeds _ | GroupRecords _ _ | ParentCancels => None
  end.

(** The error that a [Run], a [Stop] or the server returns in a move. *)
Definition returned_error (m : Move) : option error :=
  match m with
  | RunReturns _ err | ServerReturns err | StopReturns _ err => err
  | StopProceeds _ | GroupRecords _ _ | ParentCancels => None
  end.

(** The error a move hands to the group, and the first error that the
    moves of a schedule hand to it. *)
Definition handed_error (m : Move) : option error :=
  match m with
  | GroupRecords _ err => err
  | RunReturns _ _ | ServerReturns _ | StopProceeds _ | StopReturns _ _
  | ParentCancels => None
  end.

Fixpoint first_error (schedule : list Move) : option error :=
  match schedule with
  | [] => None
  | m :: rest =>
      match handed_error m with
      | Some e => Some e
      | None => first_error rest
      end
  end.

(** Every processor of the chain stops one after the other, first to last,
    and all goroutines return without an error. *)
Definition stop_first_to_last : list Move :=
  [ParentCancels; ServerReturns None; GroupRecords ServerOf None;
   StopProceeds 0; StopReturns 0 None; GroupRecords (StopOf 0) None;
   RunReturns 0 None; GroupRecords (RunOf 0) None;
   StopProceeds 1; StopReturns 1 None; GroupRecords (StopOf 1) None;
   RunReturns 1 None; GroupRecords (RunOf 1) None;
   StopProceeds 2; StopReturns 2 None; GroupRecords (StopOf 2) None;
   RunReturns 2 None; GroupRecords (RunOf 2) None].

(** The [Run] of the first two processors fails, one after the other, and
    everything else winds down without an error. *)
Definition two_failures (first second : error) : list Move :=
  [RunReturns 0 (Some first); GroupRecords (RunOf 0) (Some first);
   RunReturns 1 (Some second); GroupRecords (RunOf 1) (Some second);
   ServerReturns None; GroupRecords ServerOf None;
   StopProceeds 2; StopReturns 2 None; GroupRecords (StopOf 2) None;
   RunReturns 2 None; GroupRecords (RunOf 2) None;
   StopProceeds 1; StopReturns 1 None; GroupRecords (StopOf 1) None;
   StopProceeds 0; StopReturns 0 None; GroupRecords (StopOf 0) None].

(** The server returns an error and closes the channel; before its wrapper
    has run, the [Stop] of the first processor is called, fails, and its
    wrapper runs first. *)
Definition stop_error_first (server_error stop_error : error) : list Move :=
  [ServerReturns (Some server_error);
   StopProceeds 0; StopReturns 0 (Some stop_error);
   GroupRecords (StopOf 0) (Some stop_error);
   GroupRecords ServerOf (Some server_error);
   RunReturns 0 None; GroupRecords (RunOf 0) None;
   StopProceeds 1; StopReturns 1 None; GroupRecords (StopOf 1) None;
   RunReturns 1 None; GroupRecords (RunOf 1) None;
   StopProceeds 2; StopReturns 2 None; GroupRecords (StopOf 2) None;
   RunReturns 2 None; GroupRecords (RunOf 2) None].

(** What holds of the stop goroutines at every point of a run: the channel
    [serverStopped] is closed only once the server has returned, a [Stop]
    is called only after that, with the context [stopctx], by a goroutine
    that has left its receive, and at most once per processor. *)
Definition stop_invariant (args : beater.ServerParams) (g : Group) : Prop :=
  (serverStopped g = true -> exists err, ObsServerReturned err ∈ observed g) /\
  stops_after_server (observed g) /\
  (forall i ctx,
     ObsStop i ctx ∈ observed g ->
     ctx = stopctx args /\
     (stop_pc g !! i = Some StopCalling \/ stop_pc g !! i = Some StopExited)) /\
  NoDup (stop_order g).

(** The moves the goroutines of a group still have to make before all of
    them are done: a return and the run of the wrapper, and for a stop
    goroutine the receive before them. *)
Definition run_steps (exited : bool) : nat := if exited then 0%nat else 2%nat.

Definition stop_steps (pc : StopPc) : nat :=
  match pc with
  | StopBlocked => 3%nat
  | StopCalling => 2%nat
  | StopExited => 0%nat
  end.

Definition pending (g : Group) : nat :=
  ((if server_exited g then 0 else 2)
   + sum_list (run_steps <$> run_exited g)
   + sum_list (stop_steps <$> stop_pc g)
   + length (returned g))%nat.


(** ** Where a processor sends what it emits *)

(** The [BatchProcessor] of the configuration a processor was built from:
    the aggregators publish their metricsets to it and the sampler its
    sampled events. *)
Definition emits_to (p : Processor) : model_BatchProcessor :=
  match p with
  | TxAggregator _ cfg => txmetrics.BatchProcessor cfg
  | SpanAggregator _ cfg => spanmetrics.BatchProcessor cfg
  | SamplingProcessor _ cfg => sampling.BatchProcessor cfg
  end.

(** ** Process exit: [closeBadger], [closeStorage], [cleanup], [Main] *)

(** A [Close] call at exit: [storage.Close()], which returns nothing, and
    [badgerDB.Close()] with the error it returned. *)
Inductive Closing : Type :=
| ClosedStorage (rw : ShardedReadWriter)
| ClosedBadger (db : BadgerDB) (err : option error).

(** The process at exit: the package-level variables and the [Close] calls
    made so far. *)
Record AtExit : Type := {
  globals : World;
  closings : list Closing;
}.

(** An [error] value at exit: an error as before, or the [*multierror.Error]
    that [multierror.Append] builds. *)
Inductive exitError : Type :=
| plainError (err : error)
| multierror_Error (Errors : list exitError).

(** What [multierror.Append] takes from one argument: the errors of a
    [*multierror.Error], the error itself otherwise, nothing from nil. *)
Definition multierror_flatten (err : option exitError) : list exitError :=
  match err with
  | Some (multierror_Error errors) => errors
  | Some e => [e]
  | None => []
  end.

(** [multierror.Append(err, errs...)] ([github.com/hashicorp/go-multierror]). *)
Definition multierror_Append (err : option exitError) (errs : list (option exitError))
  : exitError :=
  multierror_Error (multierror_flatten err ++ concat (multierror_flatten <$> errs)).

Section Exit.
(** What [badgerDB.Close()] returns, given the [Close] calls made before. *)
Context (badger_Close : BadgerDB -> list Closing -> option error).

Definition closeBadger (p : AtExit) : AtExit * option error :=
  match badgerDB (globals p) with
  | Some db =>
      let err := badger_Close db (closings p) in
      ({| globals := globals p; closings := closings p ++ [ClosedBadger db err] |}, err)
  | None => (p, None)
  end.

Definition closeStorage (p : AtExit) : AtExit :=
  match storage (globals p) with
  | Some rw => {| globals := globals p; closings := closings p ++ [ClosedStorage rw] |}
  | None => p
  end.

Definition cleanup (p : AtExit) : AtExit * option exitError :=
  let result : option exitError := None in
  let p := closeStorage p in
  let '(p, err) := closeBadger p in
  match err with
  | Some err => (p, Some (multierror_Append result [Some (plainError err)]))
  | None => (p, result)
  end.

(** [Main], with [rootCmd.Execute()] as a parameter: whatever the command
    does to the process before it returns.  When it panics, nothing after
    it runs. *)
Definition Main (Execute : Go (option exitError)) (w : World)
  : Outcome (list Closing * option exitError) :=
  match Execute w with
  | Panicked reason => Panicked reason
  | Returned w' result =>
      let '(p, err) := cleanup {| globals := w'; closings := [] |} in
      let result :=
        match err with
        | Some err => Some (multierror_Append result [Some err])
        | None => result
        end in
      Returned (globals p) (closings p, result)
  end.

(** [main]: the exit status. *)
Definition main_exit_status (result : option exitError) : Z :=
  match result with
  | Some _ => 1
  | None => 0
  end.
End Exit.

Definition closed_storages (cs : list Closing) : list ShardedReadWriter :=
  omap (fun c => match c with ClosedStorage rw => Some rw | _ => None end) cs.

Definition closed_databases (cs : list Closing) : list BadgerDB :=
  omap (fun c => match c with ClosedBadger db _ => Some db | _ => None end) cs.

(** ** [splitMetadataAndSource] ([systemtest/gencorpora/catbulk.go])

    The split function that the fake Elasticsearch server gives to its
    [bufio.Scanner]: it cuts a bulk request body into documents of two
    lines, the action-and-metadata line and the source line. *)

(** Go's [int] on a 64-bit platform: sums wrap around. *)
Definition int_wrap (z : Z) : Z := (z + 2 ^ 63) mod 2 ^ 64 - 2 ^ 63.
Definition int_add (a b : Z) : Z := int_wrap (a + b).

(** [len(s)]. *)
Definition len {A : Type} (s : list A) : Z := Z.of_nat (length s).

Definition newline : Byte.byte := Byte.x0a.

(** [bytes.IndexByte(b, c)]: the index of the first [c] in [b], or -1. *)
Fixpoint bytes_IndexByte (b : list Byte.byte) (c : Byte.byte) : Z :=
  match b with
  | [] => -1
  | x :: rest =>
      if Byte.eqb x c then 0
      else
        let i := bytes_IndexByte rest c in
        if i <? 0 then -1 else i + 1
  end.

(** [s[lo:]] and [s[:hi]]; [None] when the index lies outside the slice,
    where the program would panic or reach beyond the length. *)
Definition slice_from {A : Type} (s : list A) (lo : Z) : option (list A) :=
  if (0 <=? lo) && (lo <=? len s) then Some (drop (Z.to_nat lo) s) else None.

Definition slice_to {A : Type} (s : list A) (hi : Z) : option (list A) :=
  if (0 <=? hi) && (hi <=? len s) then Some (take (Z.to_nat hi) s) else None.

(** The function returns [(advance, token, err)]; a nil token is [None].
    The outer [None] stands for an index outside the slice. *)
Definition splitMetadataAndSource (data : list Byte.byte) (atEOF : bool)
  : option (Z * option (list Byte.byte) * option error) :=
  if atEOF && (len data =? 0) then Some (0, None, None)
  else
    (* the statements after the search for the two end-of-line markers *)
    let otherwise :=
      if atEOF then Some (len data, Some data, None) else Some (0, None, None) in
    let i := bytes_IndexByte data newline in
    if i >=? 0 then
      if len data >? int_add i 1 then
        match slice_from data (int_add i 1) with
        | None => None
        | Some from_source =>
            let j := bytes_IndexByte from_source newline in
            if j >=? 0 then
              match slice_to data (int_add (int_add i j) 2) with
              | None => None
              | Some token => Some (int_add (int_add i j) 2, Some token, None)
              end
            else otherwise
        end
      else otherwise
    else otherwise.

(** The number of end-of-line markers in a buffer. *)
Fixpoint count_newlines (data : list Byte.byte) : nat :=
  match data with
  | [] => 0%nat
  | x :: rest => ((if Byte.eqb x newline then 1 else 0) + count_newlines rest)%nat
  end.

(** A document: two lines, each closed by its end-of-line marker. *)
Definition document (metadata source : list Byte.byte) : list Byte.byte :=
  metadata ++ newline :: source ++ [newline].

(** Two documents and the first line of a third, as bytes. *)
Definition example_bulk_body : list Byte.byte :=
  document [Byte.x7b; Byte.x7d] [Byte.x61]
  ++ document [Byte.x7b; Byte.x7d] [Byte.x62; Byte.x63]
  ++ [Byte.x7b; Byte.x7d; newline; Byte.x64].

(** * Properties *)

(** ** The policies loop *)

Lemma range_Policies_spec ins : forall i policies,
  (i + length ins <= length policies)%nat ->
  range_Policies i ins policies
  = take i policies ++ (policy_of <$> ins) ++ drop (i + length ins) policies.
Proof.
  induction ins as [|in_ rest IH]; intros i policies Hlen; simpl in *.
  - rewrite Nat.add_0_r, take_drop. reflexivity.
  - rewrite IH by (rewrite length_insert; lia).
    rewrite (take_S_r _ _ (policy_of in_)) by (apply list_lookup_insert_eq; lia).
    rewrite take_insert_ge by lia.
    rewrite drop_insert_lt by lia.
    rewrite <- app_assoc. simpl.
    replace (S (i + length rest)) with (i + S (length rest))%nat by lia.
    reflexivity.
Qed.

Lemma range_Policies_make ins :
  range_Policies 0 ins (replicate (length ins) sampling.zeroPolicy) = policy_of <$> ins.
Proof.
  rewrite range_Policies_spec by (rewrite length_replicate; lia).
  rewrite take_0, drop_ge by (rewrite length_replicate; lia).
  simpl. apply app_nil_r.
Qed.

(** ** What [newTailSamplingProcessor] returns *)

Ltac run_Go H :=
  cbv [call_NewElasticsearchClient paths_Resolve_Data getBadgerDB getStorage
       sampling_NewProcessor txmetrics_NewAggregator spanmetrics_NewAggregator
       eventstorage_OpenBadger eventstorage_New_NewShardedReadWriter
       Logger_Infof_creating
       fmap Go_fmap mbind Go_bind mret Go_ret get modify record new_object] in H;
  simpl in H.

Ltac run_Go_goal :=
  cbv [call_NewElasticsearchClient paths_Resolve_Data getBadgerDB getStorage
       sampling_NewProcessor txmetrics_NewAggregator spanmetrics_NewAggregator
       eventstorage_OpenBadger eventstorage_New_NewShardedReadWriter
       Logger_Infof_creating
       fmap Go_fmap mbind Go_bind mret Go_ret get modify record new_object];
  simpl.

Section Sampler.
Context (env : Externals).

(** The sampler is built from the literal, with the converted policies,
    the client of the factory and the process-wide storage. *)
Lemma newTailSamplingProcessor_Ok args w w' p :
  newTailSamplingProcessor env args w = Returned w' (Ok p) ->
  let tail := config.Tail (config.Sampling (beater.Config args)) in
  exists oid es db rw,
    beater.NewElasticsearchClient args (config.ESConfig tail) = Ok es /\
    badgerDB w' = Some db /\ storage w' = Some rw /\
    p = SamplingProcessor oid
          (sampling_Config_literal args es db rw
             (paths_Resolve (paths_Data w) tailSamplingStorageDir)
             (policy_of <$> config.Policies tail)).
Proof.
  intros H tail. unfold newTailSamplingProcessor in H. fold tail in H.
  rewrite range_Policies_make in H.
  run_Go H.
  repeat case_match; simplify_eq; simpl.
  all: eexists _, _, _, _; repeat split; try eassumption; try reflexivity.
Qed.
End Sampler.

(** C7.  The policies handed to the sampling processor are the configured
    ones, one for one and in the same order: the list has the length of the
    configured list and its i-th entry carries the service name, service
    environment, trace name, trace outcome and sample rate of the i-th
    configured policy. *)
Theorem policies_handed_over_in_order env args w w' p :
  newTailSamplingProcessor env args w = Returned w' (Ok p) ->
  let configured := config.Policies (config.Tail (config.Sampling (beater.Config args))) in
  exists oid cfg,
    p = SamplingProcessor oid cfg /\
    length (sampling.Policies (sampling.Local cfg)) = length configured /\
    forall i in_,
      configured !! i = Some in_ ->
      exists out,
        sampling.Policies (sampling.Local cfg) !! i = Some out /\
        sampling.ServiceName (sampling.Criteria out)
          = config.ServiceName (config.Service in_) /\
        sampling.ServiceEnvironment (sampling.Criteria out)
          = config.ServiceEnvironment (config.Service in_) /\
        sampling.TraceName (sampling.Criteria out) = config.TraceName (config.Trace in_) /\
        sampling.TraceOutcome (sampling.Criteria out)
          = config.TraceOutcome (config.Trace in_) /\
        sampling.SampleRate out = config.SampleRate in_.
Proof.
  intros H configured.
  destruct (newTailSamplingProcessor_Ok env args w w' p H) as (oid & es & db & rw & _ & _ & _ & ->).
  eexists _, _. split; [reflexivity|]. simpl. fold configured. split.
  - apply length_fmap.
  - intros i in_ Hi. exists (policy_of in_). split.
    + rewrite list_lookup_fmap, Hi. reflexivity.
    + repeat split.
Qed.

Lemma policies_handed_over_in_order_witness :
  exists w' p,
    newTailSamplingProcessor accepting (example_args true) fresh_process = Returned w' (Ok p) /\
    exists oid cfg,
      p = SamplingProcessor oid cfg /\
      length (sampling.Policies (sampling.Local cfg)) = 1%nat /\
      forall i in_,
        [example_policy] !! i = Some in_ ->
        exists out,
          sampling.Policies (sampling.Local cfg) !! i = Some out /\
          sampling.ServiceName (sampling.Criteria out)
            = config.ServiceName (config.Service in_) /\
          sampling.ServiceEnvironment (sampling.Criteria out)
            = config.ServiceEnvironment (config.Service in_) /\
          sampling.TraceName (sampling.Criteria out) = config.TraceName (config.Trace in_) /\
          sampling.TraceOutcome (sampling.Criteria out)
            = config.TraceOutcome (config.Trace in_) /\
          sampling.SampleRate out = config.SampleRate in_.
Proof.
  eexists _, _. split; [vm_compute; reflexivity|].
  eapply (policies_handed_over_in_order accepting (example_args true) fresh_process).
  vm_compute; reflexivity.
Defined.

(** C5.  The sampling processor is built with the sampled-traces data
    stream of type "traces", dataset "apm.sampled" and the configured
    namespace, that is the data stream traces-apm.sampled-<namespace>; its
    BeatID is the string of the server's UUID and its compression level is
    the one of the Elasticsearch configuration. *)
Theorem sampler_publishes_to_sampled_traces env args w w' p :
  newTailSamplingProcessor env args w = Returned w' (Ok p) ->
  exists oid cfg,
    p = SamplingProcessor oid cfg /\
    let ds := sampling.SampledTracesDataStream (sampling.Remote cfg) in
    sampling.Type_ ds = "traces" /\
    sampling.Dataset ds = "apm.sampled" /\
    sampling.Namespace ds = beater.Namespace args /\
    DataStream_name ds = "traces-apm.sampled-" +:+ beater.Namespace args /\
    sampling.BeatID cfg = UUID_String (beater.UUID_ args) /\
    sampling.CompressionLevel (sampling.Remote cfg)
      = elasticsearch.CompressionLevel
          (config.ESConfig (config.Tail (config.Sampling (beater.Config args)))).
Proof.
  intros H.
  destruct (newTailSamplingProcessor_Ok env args w w' p H) as (oid & es & db & rw & _ & _ & _ & ->).
  eexists _, _. split; [reflexivity|]. simpl. repeat split.
Qed.

Lemma sampler_publishes_to_sampled_traces_witness :
  exists w' p,
    newTailSamplingProcessor accepting (example_args true) fresh_process = Returned w' (Ok p) /\
    exists oid cfg,
      p = SamplingProcessor oid cfg /\
      let ds := sampling.SampledTracesDataStream (sampling.Remote cfg) in
      sampling.Type_ ds = "traces" /\
      sampling.Dataset ds = "apm.sampled" /\
      sampling.Namespace ds = "default" /\
      DataStream_name ds = "traces-apm.sampled-default" /\
      sampling.BeatID cfg = "2b0e7c4e-7f0b-4d6a-9d7b-0c1f2e3a4b5c" /\
      sampling.CompressionLevel (sampling.Remote cfg) = 5.
Proof.
  eexists _, _. split; [vm_compute; reflexivity|].
  eapply (sampler_publishes_to_sampled_traces accepting (example_args true) fresh_process).
  vm_compute; reflexivity.
Defined.

(** C10.  Whatever the configuration, the sampling processor is built with
    MaxDynamicServices = 1000. *)
Theorem sampler_MaxDynamicServices env args w w' p :
  newTailSamplingProcessor env args w = Returned w' (Ok p) ->
  exists oid cfg,
    p = SamplingProcessor oid cfg /\
    sampling.MaxDynamicServices (sampling.Local cfg) = 1000.
Proof.
  intros H.
  destruct (newTailSamplingProcessor_Ok env args w w' p H) as (oid & es & db & rw & _ & _ & _ & ->).
  eexists _, _. split; reflexivity.
Qed.

Lemma sampler_MaxDynamicServices_witness :
  exists w' p,
    newTailSamplingProcessor accepting (example_args true) fresh_process = Returned w' (Ok p) /\
    exists oid cfg,
      p = SamplingProcessor oid cfg /\
      sampling.MaxDynamicServices (sampling.Local cfg) = 1000.
Proof.
  eexists _, _. split; [vm_compute; reflexivity|].
  eapply (sampler_MaxDynamicServices accepting (example_args true) fresh_process).
  vm_compute; reflexivity.
Defined.

(** ** What [newProcessors] does, step by step *)

Section NewProcessors.
Context (env : Externals).

Lemma newProcessors_run args w :
  newProcessors env args w =
  match txmetrics_invalid env (txmetrics_AggregatorConfig_literal args) with
  | Some err =>
      Returned (with_trace (trace w ++ [EvInfof ("creating " +:+ txName)]) w)
        (Err (errors_Wrapf_creating err txName))
  | None =>
      match spanmetrics_invalid env (spanmetrics_AggregatorConfig_literal args) with
      | Some err =>
          Returned (tx_aggregator_registered args w)
            (Err (errors_Wrapf_creating err spanName))
      | None =>
          let processors := [tx_aggregator args w; span_aggregator args w] in
          if config.Enabled (config.Tail (config.Sampling (beater.Config args))) then
            match newTailSamplingProcessor env args (aggregators_built args w) with
            | Panicked reason => Panicked reason
            | Returned w' (Err err) => Returned w' (Err (errors_Wrapf_creating err samplerName))
            | Returned w' (Ok sampler) =>
                match samplingMonitoringRegistry w' with
                | None => Panicked "nil pointer dereference"
                | Some r =>
                    Returned
                      (with_samplingMonitoringRegistry
                         (Some (<["tail" := FuncVar sampler]> (delete "tail" r))) w')
                      (Ok (processors ++ [{| name := samplerName; processor_ := sampler |}]))
                end
            end
          else Returned (aggregators_built args w) (Ok processors)
      end
  end.
Proof.
  unfold newProcessors.
  cbv [txmetrics_NewAggregator spanmetrics_NewAggregator Logger_Infof_creating
       Registry_Remove monitoring_NewFunc
       mbind Go_bind mret Go_ret get modify record new_object].
  cbn [trace allocated aggregationMonitoringRegistry samplingMonitoringRegistry
       with_trace with_allocated with_aggregationMonitoringRegistry
       with_samplingMonitoringRegistry badgerDB storage paths_Data].
  destruct (txmetrics_invalid env _) as [err|]; [reflexivity|].
  cbn [trace allocated aggregationMonitoringRegistry samplingMonitoringRegistry
       with_trace with_allocated with_aggregationMonitoringRegistry
       with_samplingMonitoringRegistry badgerDB storage paths_Data].
  rewrite lookup_delete_eq.
  cbn [trace allocated aggregationMonitoringRegistry samplingMonitoringRegistry
       with_trace with_allocated with_aggregationMonitoringRegistry
       with_samplingMonitoringRegistry badgerDB storage paths_Data].
  destruct (spanmetrics_invalid env _) as [err|].
  { reflexivity. }
  cbn [trace allocated aggregationMonitoringRegistry samplingMonitoringRegistry
       with_trace with_allocated with_aggregationMonitoringRegistry
       with_samplingMonitoringRegistry badgerDB storage paths_Data].
  destruct (config.Enabled _); [|reflexivity].
  match goal with
  | |- match newTailSamplingProcessor env args ?W with _ => _ end = _ =>
      change W with (aggregators_built args w)
  end.
  destruct (newTailSamplingProcessor env args (aggregators_built args w))
    as [reason|w' [err|sampler]]; try reflexivity.
  destruct (samplingMonitoringRegistry w') as [r|] eqn:Hr; [|reflexivity].
  cbn [samplingMonitoringRegistry with_samplingMonitoringRegistry].
  rewrite lookup_delete_eq. reflexivity.
Qed.
End NewProcessors.

(** ** The storage singletons *)

Section Storage.
Context (env : Externals).

Lemma getBadgerDB_run storageDir w :
  getBadgerDB env storageDir w =
  match badgerDB w with
  | Some db => Returned w (Ok db)
  | None =>
      match badger_unavailable env storageDir w with
      | Some err =>
          Returned (with_trace (trace w ++ [EvOpenBadger storageDir (-1) None]) w) (Err err)
      | None =>
          let db := {| db_oid := allocated w; db_dir := storageDir |} in
          Returned
            (with_badgerDB (Some db)
               (with_trace (trace w ++ [EvOpenBadger storageDir (-1) (Some db)])
                  (with_allocated (S (allocated w)) w)))
            (Ok db)
      end
  end.
Proof.
  unfold getBadgerDB. run_Go_goal.
  destruct (badgerDB w); [reflexivity|].
  destruct (badger_unavailable env storageDir w); reflexivity.
Qed.

Lemma getStorage_run db w :
  getStorage db w =
  match storage w with
  | Some rw => Returned w rw
  | None =>
      let rw := {| rw_oid := allocated w; rw_db := db; rw_codec := JSONCodec |} in
      Returned
        (with_storage (Some rw)
           (with_trace (trace w ++ [EvNewStorage rw]) (with_allocated (S (allocated w)) w)))
        rw
  end.
Proof.
  unfold getStorage. run_Go_goal. destruct (storage w); reflexivity.
Qed.

Lemma newTailSamplingProcessor_run args w :
  let tail := config.Tail (config.Sampling (beater.Config args)) in
  let storageDir := paths_Resolve (paths_Data w) tailSamplingStorageDir in
  let w1 := with_trace (trace w ++ [EvNewElasticsearchClient (config.ESConfig tail)]) w in
  newTailSamplingProcessor env args w =
  match beater.NewElasticsearchClient args (config.ESConfig tail) with
  | Err err =>
      Returned w1
        (Err (errors_Wrap err "failed to create Elasticsearch client for tail-sampling"))
  | Ok es =>
      match getBadgerDB env storageDir w1 with
      | Panicked reason => Panicked reason
      | Returned w2 (Err err) =>
          Returned (with_badgerDB None w2)
            (Err (errors_Wrap err "failed to get Badger database"))
      | Returned w2 (Ok db) =>
          match getStorage db (with_badgerDB (Some db) w2) with
          | Panicked reason => Panicked reason
          | Returned w3 rw =>
              sampling_NewProcessor env
                (sampling_Config_literal args es db rw storageDir
                   (policy_of <$> config.Policies tail)) w3
          end
      end
  end.
Proof.
  intros tail storageDir w1. unfold newTailSamplingProcessor. fold tail.
  rewrite range_Policies_make.
  cbv [call_NewElasticsearchClient paths_Resolve_Data
       mbind Go_bind mret Go_ret get modify record].
  fold w1. destruct (beater.NewElasticsearchClient args _) as [err|es]; [reflexivity|].
  change (paths_Data w1) with (paths_Data w). fold storageDir.
  destruct (getBadgerDB env storageDir w1) as [reason|w2 [err|db]]; reflexivity.
Qed.

Lemma sampling_NewProcessor_run c w :
  sampling_NewProcessor env c w =
  match sampling_invalid env c with
  | Some err => Returned w (Err err)
  | None => Returned (with_allocated (S (allocated w)) w) (Ok (SamplingProcessor (allocated w) c))
  end.
Proof.
  unfold sampling_NewProcessor. destruct (sampling_invalid env c); reflexivity.
Qed.

Lemma omap_snoc {A B : Type} (f : A -> option B) (l : list A) (x : A) :
  omap f (l ++ [x]) = omap f l ++ option_list (f x).
Proof.
  rewrite omap_app. simpl. destruct (f x); reflexivity.
Qed.

Lemma keeps_refl w : keeps w w.
Proof. unfold keeps. repeat split; auto. congruence. Qed.

Lemma keeps_trans w1 w2 w3 : keeps w1 w2 -> keeps w2 w3 -> keeps w1 w3.
Proof.
  intros (Hd1 & Hs1 & Hc1) (Hd2 & Hs2 & Hc2). repeat split; auto.
  intros Hnone rw Hrw. destruct (storage w2) as [rw2|] eqn:E2.
  - specialize (Hs2 rw2 eq_refl). assert (rw = rw2) by congruence. subst. eauto.
  - eauto.
Qed.

Lemma same_registries_refl w : same_registries w w.
Proof. repeat split. Qed.

Lemma same_registries_trans w1 w2 w3 :
  same_registries w1 w2 -> same_registries w2 w3 -> same_registries w1 w3.
Proof. unfold same_registries. intuition congruence. Qed.

Lemma getBadgerDB_sound storageDir w :
  singletons w ->
  exists w' r,
    getBadgerDB env storageDir w = Returned w' r /\
    singletons w' /\ keeps w w' /\ same_registries w w' /\ storage w' = storage w /\
    match r with
    | Ok db => badgerDB w' = Some db
    | Err _ => badgerDB w' = None /\ badgerDB w = None
    end.
Proof.
  intros [Hdb Hrw]. rewrite getBadgerDB_run.
  destruct (badgerDB w) as [db|] eqn:Edb.
  - eexists _, _. split; [reflexivity|]. rewrite Edb.
    split; [split; congruence|]. split; [apply keeps_refl|].
    split; [apply same_registries_refl|]. split; reflexivity.
  - destruct (badger_unavailable env storageDir w) as [err|]; cbv zeta.
    + eexists _, _. split; [reflexivity|]. repeat split; simpl; try congruence.
      * unfold opened_databases in *. simpl. rewrite omap_snoc, Hdb, Edb. reflexivity.
      * unfold built_storages in *. simpl. rewrite omap_snoc, Hrw. simpl. apply app_nil_r.
    + eexists _, _. split; [reflexivity|]. repeat split; simpl; try congruence.
      * unfold opened_databases in *. simpl. rewrite omap_snoc, Hdb. reflexivity.
      * unfold built_storages in *. simpl. rewrite omap_snoc, Hrw. simpl. apply app_nil_r.
Qed.

Lemma getStorage_sound db w :
  singletons w ->
  exists w' rw,
    getStorage db w = Returned w' rw /\
    singletons w' /\ keeps w w' /\ same_registries w w' /\
    badgerDB w' = badgerDB w /\ storage w' = Some rw.
Proof.
  intros [Hdb Hrw]. rewrite getStorage_run.
  destruct (storage w) as [rw|] eqn:Erw; cbv zeta.
  - eexists _, _. split; [reflexivity|]. rewrite Erw.
    split; [split; congruence|]. split; [apply keeps_refl|].
    split; [apply same_registries_refl|]. split; reflexivity.
  - eexists _, _. split; [reflexivity|]. repeat split; simpl; try congruence.
    + unfold opened_databases in *. simpl. rewrite omap_snoc, Hdb. simpl. apply app_nil_r.
    + unfold built_storages in *. simpl. rewrite omap_snoc, Hrw. reflexivity.
    + intros _ rw' [= <-]. reflexivity.
Qed.

(** Changes of a state that the storage invariants do not see. *)
Lemma singletons_same w w' :
  trace w' = trace w -> badgerDB w' = badgerDB w -> storage w' = storage w ->
  singletons w -> singletons w'.
Proof.
  unfold singletons, opened_databases, built_storages. intros -> -> ->. auto.
Qed.

Lemma keeps_same w w' :
  badgerDB w' = badgerDB w -> storage w' = storage w -> keeps w w'.
Proof. unfold keeps. intros -> ->. repeat split; auto. congruence. Qed.

Lemma newTailSamplingProcessor_sound args w :
  singletons w ->
  exists w' r,
    newTailSamplingProcessor env args w = Returned w' r /\
    singletons w' /\ keeps w w' /\ same_registries w w' /\
    match r with
    | Ok (SamplingProcessor _ cfg) =>
        badgerDB w' = Some (sampling.DB (sampling.StorageCfg cfg)) /\
        storage w' = Some (sampling.Storage (sampling.StorageCfg cfg))
    | Ok _ => False
    | Err _ => True
    end.
Proof.
  intros Hw. rewrite newTailSamplingProcessor_run. cbv zeta.
  set (w1 := with_trace _ w).
  assert (Hs1 : singletons w1).
  { destruct Hw as [Hdb Hrw]. split.
    - unfold opened_databases in *. subst w1. simpl. rewrite omap_snoc, Hdb. apply app_nil_r.
    - unfold built_storages in *. subst w1. simpl. rewrite omap_snoc, Hrw. apply app_nil_r. }
  assert (Hk1 : keeps w w1) by (apply keeps_same; reflexivity).
  assert (Hr1 : same_registries w w1) by (repeat split).
  destruct (beater.NewElasticsearchClient args _) as [err|es].
  { eexists _, _. split; [reflexivity|]. auto. }
  destruct (getBadgerDB_sound (paths_Resolve (paths_Data w) tailSamplingStorageDir) w1 Hs1)
    as (w2 & r & E2 & Hs2 & Hk2 & Hr2 & Hst2 & Hout).
  rewrite E2. destruct r as [err|db].
  { destruct Hout as [Hnone2 Hnone1].
    eexists _, _. split; [reflexivity|]. split; [|split; [|split; [|exact I]]].
    - eapply singletons_same; [| | |exact Hs2]; simpl; congruence.
    - eapply keeps_trans; [exact Hk1|]. eapply keeps_trans; [exact Hk2|].
      apply keeps_same; simpl; congruence.
    - eapply same_registries_trans; [exact Hr1|].
      eapply same_registries_trans; [exact Hr2|]. repeat split. }
  set (w2' := with_badgerDB (Some db) w2).
  assert (Hs2' : singletons w2').
  { eapply singletons_same; [| | |exact Hs2]; subst w2'; simpl; congruence. }
  assert (Hk2' : keeps w2 w2').
  { apply keeps_same; subst w2'; simpl; congruence. }
  destruct (getStorage_sound db w2' Hs2') as (w3 & rw & E3 & Hs3 & Hk3 & Hr3 & Hdb3 & Hst3).
  rewrite E3, sampling_NewProcessor_run.
  assert (Hk : keeps w w3).
  { eapply keeps_trans; [exact Hk1|]. eapply keeps_trans; [exact Hk2|].
    eapply keeps_trans; [exact Hk2'|exact Hk3]. }
  assert (Hr : same_registries w w3).
  { eapply same_registries_trans; [exact Hr1|].
    eapply same_registries_trans; [exact Hr2|].
    eapply same_registries_trans; [|exact Hr3]. repeat split. }
  destruct (sampling_invalid env _) as [err|].
  { eexists _, _. split; [reflexivity|]. auto. }
  eexists _, _. split; [reflexivity|]. split; [|split; [|split]].
  - eapply singletons_same; [| | |exact Hs3]; reflexivity.
  - eapply keeps_trans; [exact Hk|]. apply keeps_same; reflexivity.
  - eapply same_registries_trans; [exact Hr|]. repeat split.
  - simpl. rewrite Hdb3. subst w2'. simpl. auto.
Qed.

Lemma storage_call_sound c w :
  singletons w ->
  exists w' a,
    storage_call env c w = Returned w' a /\
    singletons w' /\ keeps w w' /\
    (forall db, answer_db a = Some db -> badgerDB w' = Some db) /\
    (forall rw, answer_storage a = Some rw -> storage w' = Some rw).
Proof.
  intros Hw. destruct c as [storageDir|db|args]; unfold storage_call, fmap, Go_fmap,
    mbind, Go_bind, mret, Go_ret.
  - destruct (getBadgerDB_sound storageDir w Hw) as (w' & r & E & Hs & Hk & _ & _ & Hout).
    rewrite E. eexists _, _. split; [reflexivity|].
    split; [exact Hs|split; [exact Hk|split]].
    + destruct r; simpl; intros db' [= <-]. exact Hout.
    + destruct r; simpl; discriminate.
  - destruct (getStorage_sound db w Hw) as (w' & rw & E & Hs & Hk & _ & _ & Hout).
    rewrite E. eexists _, _. split; [reflexivity|].
    split; [exact Hs|split; [exact Hk|split]].
    + simpl. discriminate.
    + simpl. intros rw' [= <-]. exact Hout.
  - destruct (newTailSamplingProcessor_sound args w Hw) as (w' & r & E & Hs & Hk & _ & Hout).
    rewrite E. eexists _, _. split; [reflexivity|].
    split; [exact Hs|split; [exact Hk|split]].
    + destruct r as [err|[| |oid cfg]]; simpl; try discriminate; try contradiction.
      intros db' [= <-]. apply Hout.
    + destruct r as [err|[| |oid cfg]]; simpl; try discriminate; try contradiction.
      intros rw' [= <-]. apply Hout.
Qed.

Lemma storage_calls_sound cs : forall w,
  singletons w ->
  exists w' answers,
    storage_calls env cs w = Returned w' answers /\
    singletons w' /\ keeps w w' /\
    (forall a db, a ∈ answers -> answer_db a = Some db -> badgerDB w' = Some db) /\
    (forall a rw, a ∈ answers -> answer_storage a = Some rw -> storage w' = Some rw).
Proof.
  induction cs as [|c rest IH]; intros w Hw; simpl.
  - eexists _, _. split; [reflexivity|]. split; [exact Hw|]. split; [apply keeps_refl|].
    split; intros a ? Ha; inversion Ha.
  - destruct (storage_call_sound c w Hw) as (w1 & a & E1 & Hs1 & Hk1 & Hdb1 & Hrw1).
    destruct (IH w1 Hs1) as (w' & answers & E & Hs & Hk & Hdb & Hrw).
    unfold mbind, Go_bind, mret, Go_ret. rewrite E1, E.
    eexists _, _. split; [reflexivity|]. split; [exact Hs|].
    split; [eapply keeps_trans; eassumption|].
    destruct Hk as (Kdb & Krw & _).
    split; intros a' x Ha' Hx; apply elem_of_cons in Ha' as [->|Ha']; eauto.
Qed.

Lemma storage_calls_set cs : forall w w' answers,
  singletons w ->
  storage_calls env cs w = Returned w' answers ->
  (forall db, badgerDB w = Some db ->
     forall r, GotBadgerDB r ∈ answers -> r = Ok db) /\
  (forall rw, storage w = Some rw ->
     forall rw', GotStorage rw' ∈ answers -> rw' = rw).
Proof.
  induction cs as [|c rest IH]; intros w w' answers Hw; simpl.
  - intros [= <- <-]. split; intros ? _ ? Hin; inversion Hin.
  - destruct (storage_call_sound c w Hw) as (w1 & a & E1 & Hs1 & (Kdb & Krw & _) & _ & _).
    unfold mbind, Go_bind, mret, Go_ret. rewrite E1.
    destruct (storage_calls env rest w1) as [reason|w2 answers'] eqn:E; [discriminate|].
    intros [= <- <-]. destruct (IH w1 w2 answers' Hs1 E) as [IHdb IHrw].
    split.
    + intros db Hdb r Hin. apply elem_of_cons in Hin as [Heq|Hin]; [|eauto].
      subst a. destruct c as [storageDir|db0|args]; simpl in E1;
        unfold fmap, Go_fmap, mbind, Go_bind, mret, Go_ret in E1.
      * rewrite getBadgerDB_run, Hdb in E1. congruence.
      * destruct (getStorage db0 w); discriminate.
      * destruct (newTailSamplingProcessor env args w); discriminate.
    + intros rw Hrw rw' Hin. apply elem_of_cons in Hin as [Heq|Hin]; [|eauto].
      subst a. destruct c as [storageDir|db0|args]; simpl in E1;
        unfold fmap, Go_fmap, mbind, Go_bind, mret, Go_ret in E1.
      * destruct (getBadgerDB env storageDir w); discriminate.
      * rewrite getStorage_run, Hrw in E1. congruence.
      * destruct (newTailSamplingProcessor env args w); discriminate.
Qed.

End Storage.

(** C8.  The process holds at most one badger database and at most one
    storage facade.  [getBadgerDB] with the handle set returns it and opens
    nothing; [getStorage] with the facade set returns it and builds
    nothing, and the facade it builds otherwise uses the JSON codec.  Over
    any sequence of calls from a state in which the two variables account
    for everything opened and built, at most one database is opened and one
    facade built, every handle handed out is the one the variable holds at
    the end, and once a variable is set every later call returns its
    value. *)
Theorem one_database_one_storage env :
  (forall storageDir w db,
     badgerDB w = Some db -> getBadgerDB env storageDir w = Returned w (Ok db)) /\
  (forall db0 w rw,
     storage w = Some rw -> getStorage db0 w = Returned w rw) /\
  (forall db0 w,
     storage w = None ->
     exists w' rw,
       getStorage db0 w = Returned w' rw /\ storage w' = Some rw /\
       rw_db rw = db0 /\ rw_codec rw = JSONCodec) /\
  (forall cs w,
     singletons w ->
     exists w' answers,
       storage_calls env cs w = Returned w' answers /\
       singletons w' /\
       (length (opened_databases w') <= 1)%nat /\
       (length (built_storages w') <= 1)%nat /\
       keeps w w' /\
       (forall a db, a ∈ answers -> answer_db a = Some db -> badgerDB w' = Some db) /\
       (forall a rw, a ∈ answers -> answer_storage a = Some rw -> storage w' = Some rw) /\
       (forall a1 a2 db1 db2, a1 ∈ answers -> a2 ∈ answers ->
          answer_db a1 = Some db1 -> answer_db a2 = Some db2 -> db1 = db2) /\
       (forall a1 a2 rw1 rw2, a1 ∈ answers -> a2 ∈ answers ->
          answer_storage a1 = Some rw1 -> answer_storage a2 = Some rw2 -> rw1 = rw2) /\
       (forall db, badgerDB w = Some db ->
          forall r, GotBadgerDB r ∈ answers -> r = Ok db) /\
       (forall rw, storage w = Some rw ->
          forall rw', GotStorage rw' ∈ answers -> rw' = rw)).
Proof.
  split; [|split; [|split]].
  - intros storageDir w db H. rewrite getBadgerDB_run, H. reflexivity.
  - intros db0 w rw H. rewrite getStorage_run, H. reflexivity.
  - intros db0 w H. rewrite getStorage_run, H. cbv zeta.
    eexists _, _. split; [reflexivity|]. repeat split.
  - intros cs w Hw.
    destruct (storage_calls_sound env cs w Hw) as (w' & answers & E & Hs & Hk & Hdb & Hrw).
    destruct (storage_calls_set env cs w w' answers Hw E) as [Sdb Srw].
    exists w', answers. split; [exact E|]. split; [exact Hs|].
    destruct Hs as [Hopened Hbuilt].
    split; [rewrite Hopened; destruct (badgerDB w'); simpl; lia|].
    split; [rewrite Hbuilt; destruct (storage w'); simpl; lia|].
    split; [exact Hk|]. split; [exact Hdb|]. split; [exact Hrw|].
    split; [|split; [|split; [exact Sdb|exact Srw]]].
    + intros a1 a2 db1 db2 H1 H2 E1 E2.
      pose proof (Hdb a1 db1 H1 E1). pose proof (Hdb a2 db2 H2 E2). congruence.
    + intros a1 a2 rw1 rw2 H1 H2 E1 E2.
      pose proof (Hrw a1 rw1 H1 E1). pose proof (Hrw a2 rw2 H2 E2). congruence.
Qed.

Lemma one_database_one_storage_witness :
  singletons fresh_process /\
  exists w' answers,
    storage_calls accepting
      [CallGetBadgerDB "home/data/tail_sampling";
       CallNewTailSamplingProcessor (example_args true);
       CallGetBadgerDB "elsewhere";
       CallGetStorage {| db_oid := 7; db_dir := "elsewhere" |}]
      fresh_process = Returned w' answers /\
    (length (opened_databases w') <= 1)%nat /\
    (length (built_storages w') <= 1)%nat /\
    (forall a1 a2 db1 db2, a1 ∈ answers -> a2 ∈ answers ->
       answer_db a1 = Some db1 -> answer_db a2 = Some db2 -> db1 = db2) /\
    (forall a1 a2 rw1 rw2, a1 ∈ answers -> a2 ∈ answers ->
       answer_storage a1 = Some rw1 -> answer_storage a2 = Some rw2 -> rw1 = rw2).
Proof.
  assert (Hstart : singletons fresh_process) by (split; reflexivity).
  split; [exact Hstart|].
  destruct (one_database_one_storage accepting) as (_ & _ & _ & Hcalls).
  destruct (Hcalls [CallGetBadgerDB "home/data/tail_sampling";
                    CallNewTailSamplingProcessor (example_args true);
                    CallGetBadgerDB "elsewhere";
                    CallGetStorage {| db_oid := 7; db_dir := "elsewhere" |}]
              fresh_process Hstart)
    as (w' & answers & E & _ & Hopened & Hbuilt & _ & _ & _ & Hdb & Hrw & _).
  exists w', answers. auto.
Defined.

(** ** The chain that [wrapServer] builds *)

Lemma range_processors_spec processors : forall i processorChain,
  (i + length processors <= length processorChain)%nat ->
  range_processors i processors processorChain
  = take i processorChain ++ (Named <$> processors)
      ++ drop (i + length processors) processorChain.
Proof.
  induction processors as [|p rest IH]; intros i processorChain Hlen; simpl in *.
  - rewrite Nat.add_0_r, take_drop. reflexivity.
  - rewrite IH by (rewrite length_insert; lia).
    rewrite (take_S_r _ _ (Named p)) by (apply list_lookup_insert_eq; lia).
    rewrite take_insert_ge by lia.
    rewrite drop_insert_lt by lia.
    rewrite <- app_assoc. simpl.
    replace (S (i + length rest)) with (i + S (length rest))%nat by lia.
    reflexivity.
Qed.

Lemma processorChain_spec (processors : list NamedProcessor) (last : model_BatchProcessor) :
  <[length processors := last]>
    (range_processors 0 processors (replicate (length processors + 1) nilBatchProcessor))
  = (Named <$> processors) ++ [last].
Proof.
  rewrite range_processors_spec by (rewrite length_replicate; lia).
  rewrite take_0. simpl.
  rewrite drop_replicate.
  replace (length processors + 1 - length processors)%nat with 1%nat by lia.
  simpl.
  rewrite <- (length_fmap Named processors) at 1.
  rewrite insert_app_r_alt by lia. rewrite Nat.sub_diag. reflexivity.
Qed.

Section Wrap.
Context (env : Externals).

Lemma wrapServer_run args runServer w :
  wrapServer env args runServer w =
  match newProcessors env args w with
  | Panicked reason => Panicked reason
  | Returned w' (Err err) => Returned w' (Err err)
  | Returned w' (Ok processors) =>
      Returned w'
        (Ok (beater.with_BatchProcessor
               (Chained ((Named <$> processors) ++ [beater.BatchProcessor args])) args,
             wrappedRunServer runServer processors))
  end.
Proof.
  unfold wrapServer, mbind, Go_bind, mret, Go_ret.
  destruct (newProcessors env args w) as [reason|w' [err|processors]]; try reflexivity.
  rewrite processorChain_spec. reflexivity.
Qed.

Lemma getBadgerDB_returns storageDir w :
  exists w' r, getBadgerDB env storageDir w = Returned w' r /\ same_registries w w'.
Proof.
  rewrite getBadgerDB_run. destruct (badgerDB w); [|destruct (badger_unavailable _ _ _)];
    eexists _, _; (split; [reflexivity|repeat split]).
Qed.

Lemma getStorage_returns db w :
  exists w' rw, getStorage db w = Returned w' rw /\ same_registries w w'.
Proof.
  rewrite getStorage_run. destruct (storage w);
    eexists _, _; (split; [reflexivity|repeat split]).
Qed.

(** [newTailSamplingProcessor] never panics and leaves the registries alone. *)
Lemma newTailSamplingProcessor_returns args w :
  exists w' r, newTailSamplingProcessor env args w = Returned w' r /\ same_registries w w'.
Proof.
  rewrite newTailSamplingProcessor_run. cbv zeta.
  destruct (beater.NewElasticsearchClient args _) as [err|es].
  { eexists _, _. split; [reflexivity|repeat split]. }
  set (w1 := with_trace _ w).
  destruct (getBadgerDB_returns (paths_Resolve (paths_Data w) tailSamplingStorageDir) w1)
    as (w2 & r & E2 & R2).
  rewrite E2. destruct r as [err|db].
  { eexists _, _. split; [reflexivity|].
    eapply same_registries_trans; [|eapply same_registries_trans; [exact R2|]]; repeat split. }
  destruct (getStorage_returns db (with_badgerDB (Some db) w2)) as (w3 & rw & E3 & R3).
  rewrite E3, sampling_NewProcessor_run.
  assert (same_registries w w3).
  { eapply same_registries_trans; [|eapply same_registries_trans; [exact R2|]];
      [repeat split|].
    eapply same_registries_trans; [|exact R3]. repeat split. }
  destruct (sampling_invalid env _); eexists _, _; (split; [reflexivity|]); auto.
Qed.

(** With accepting collaborators the sampler is built. *)
Lemma newTailSamplingProcessor_accepted args w :
  accepts env args ->
  exists w' oid cfg,
    newTailSamplingProcessor env args w = Returned w' (Ok (SamplingProcessor oid cfg)).
Proof.
  intros (_ & _ & [es Hes] & Hbadger & Hsampling).
  rewrite newTailSamplingProcessor_run. cbv zeta. rewrite Hes.
  rewrite getBadgerDB_run.
  destruct (badgerDB _); [|rewrite Hbadger]; cbv beta iota zeta;
    rewrite getStorage_run; destruct (storage _); cbv beta iota zeta;
    rewrite sampling_NewProcessor_run, Hsampling; eexists _, _, _; reflexivity.
Qed.

(** Where [newTailSamplingProcessor] stands when it calls the constructor
    of the sampler: the client was created and the database is open. *)
Lemma newTailSamplingProcessor_handed args es w :
  beater.NewElasticsearchClient args
    (config.ESConfig (config.Tail (config.Sampling (beater.Config args)))) = Ok es ->
  storage_opens env args w ->
  exists w3,
    newTailSamplingProcessor env args w
    = sampling_NewProcessor env (sampler_config args es w) w3 /\
    badgerDB w3 = Some (tail_database w) /\
    storage w3 = Some (tail_storage w) /\
    same_registries w w3.
Proof.
  intros Hes Hopens. unfold storage_opens, client_created, tail_storageDir in Hopens.
  rewrite newTailSamplingProcessor_run. cbv zeta. rewrite Hes.
  unfold sampler_config. rewrite range_Policies_make.
  rewrite getBadgerDB_run. unfold tail_storage, tail_database, tail_storageDir.
  simpl badgerDB.
  destruct (badgerDB w) as [db0|] eqn:Hdb0; [|rewrite (Hopens eq_refl)]; cbv beta iota zeta;
    rewrite getStorage_run; simpl storage; destruct (storage w) as [rw0|] eqn:Hrw0;
    cbv beta iota zeta; eexists; (split; [reflexivity|]); simpl; rewrite ?Hdb0, ?Hrw0;
    repeat split; reflexivity.
Qed.

End Wrap.

(** C9.  With tail sampling disabled [newProcessors] always returns, it
    leaves the database and storage variables as they were and calls
    nothing but the logger (no Elasticsearch client, no badger database,
    no event storage), and the processors it returns are exactly the
    transaction metrics aggregator and the service destinations
    aggregator; it returns them whenever the two constructors accept. *)
Theorem no_sampler_when_disabled env args w :
  config.Enabled (config.Tail (config.Sampling (beater.Config args))) = false ->
  exists w' r,
    newProcessors env args w = Returned w' r /\
    badgerDB w' = badgerDB w /\ storage w' = storage w /\
    (exists logs,
       trace w' = trace w ++ logs /\
       Forall (fun ev => exists what, ev = EvInfof what) logs) /\
    (forall processors,
       r = Ok processors ->
       processors = [tx_aggregator args w; span_aggregator args w]) /\
    (txmetrics_invalid env (txmetrics_AggregatorConfig_literal args) = None ->
     spanmetrics_invalid env (spanmetrics_AggregatorConfig_literal args) = None ->
     r = Ok [tx_aggregator args w; span_aggregator args w]).
Proof.
  intros Hoff. rewrite newProcessors_run, Hoff.
  destruct (txmetrics_invalid env _) as [err|].
  { eexists _, _. split; [reflexivity|]. simpl. repeat split; try discriminate.
    eexists. split; [reflexivity|]. repeat constructor. eauto. }
  destruct (spanmetrics_invalid env _) as [err|].
  { eexists _, _. split; [reflexivity|]. simpl. repeat split; try discriminate.
    eexists. split; [symmetry; apply app_assoc|]. repeat constructor; eauto. }
  eexists _, _. split; [reflexivity|]. simpl. repeat split; try congruence.
  eexists. split; [symmetry; apply app_assoc|]. repeat constructor; eauto.
Qed.

Lemma no_sampler_when_disabled_witness :
  exists w',
    newProcessors accepting (example_args false) fresh_process
    = Returned w' (Ok [tx_aggregator (example_args false) fresh_process;
                       span_aggregator (example_args false) fresh_process]) /\
    badgerDB w' = None /\ storage w' = None /\
    exists logs, trace w' = logs /\ Forall (fun ev => exists what, ev = EvInfof what) logs.
Proof.
  destruct (no_sampler_when_disabled accepting (example_args false) fresh_process eq_refl)
    as (w' & r & E & Hdb & Hst & Hlogs & _ & Hok).
  rewrite (Hok eq_refl eq_refl) in E. exists w'. auto.
Defined.

(** C4.  When the construction of a processor fails, [newProcessors] and
    [wrapServer] return the error (wrapped with the name of the processor,
    and with the step for the sampler) and no wrapped server: when the
    transaction metrics constructor rejects the configuration it is handed,
    when the service destinations constructor does, and, with tail sampling
    enabled, when the Elasticsearch client cannot be created, when the
    storage directory cannot be opened at the moment [getBadgerDB] asks for
    it, or when the sampler's constructor rejects the configuration it is
    handed.  The cause of the returned error is the cause of the
    constructor's error. *)
Theorem construction_failure_stops_the_server env args runServer w :
  let tx_ok := txmetrics_invalid env (txmetrics_AggregatorConfig_literal args) = None in
  let span_ok := spanmetrics_invalid env (spanmetrics_AggregatorConfig_literal args) = None in
  let tail := config.Tail (config.Sampling (beater.Config args)) in
  let at_sampler := aggregators_built args w in
  (forall err,
     txmetrics_invalid env (txmetrics_AggregatorConfig_literal args) = Some err ->
     refused env args runServer w (errors_Wrapf_creating err txName)) /\
  (forall err,
     tx_ok ->
     spanmetrics_invalid env (spanmetrics_AggregatorConfig_literal args) = Some err ->
     refused env args runServer w (errors_Wrapf_creating err spanName)) /\
  (forall err,
     tx_ok -> span_ok -> config.Enabled tail = true ->
     beater.NewElasticsearchClient args (config.ESConfig tail) = Err err ->
     refused env args runServer w
       (errors_Wrapf_creating
          (errors_Wrap err "failed to create Elasticsearch client for tail-sampling")
          samplerName)) /\
  (forall es err,
     tx_ok -> span_ok -> config.Enabled tail = true ->
     beater.NewElasticsearchClient args (config.ESConfig tail) = Ok es ->
     badgerDB w = None ->
     badger_unavailable env (tail_storageDir at_sampler) (client_created args at_sampler)
     = Some err ->
     refused env args runServer w
       (errors_Wrapf_creating (errors_Wrap err "failed to get Badger database")
          samplerName)) /\
  (forall es err,
     tx_ok -> span_ok -> config.Enabled tail = true ->
     beater.NewElasticsearchClient args (config.ESConfig tail) = Ok es ->
     storage_opens env args at_sampler ->
     sampling_invalid env (sampler_config args es at_sampler) = Some err ->
     refused env args runServer w (errors_Wrapf_creating err samplerName)) /\
  (forall err what msg,
     errors_Cause (errors_Wrapf_creating err what) = errors_Cause err /\
     errors_Cause (errors_Wrapf_creating (errors_Wrap err msg) what) = errors_Cause err).
Proof.
  intros tx_ok span_ok tail at_sampler. subst tx_ok span_ok at_sampler.
  unfold refused. split; [|split; [|split; [|split; [|split]]]].
  - intros err Htx. rewrite wrapServer_run, newProcessors_run, Htx.
    eexists. split; reflexivity.
  - intros err Htx Hspan. rewrite wrapServer_run, newProcessors_run, Htx, Hspan.
    eexists. split; reflexivity.
  - intros err Htx Hspan Hon Hes.
    rewrite wrapServer_run, newProcessors_run, Htx, Hspan. cbv zeta. fold tail.
    rewrite Hon, newTailSamplingProcessor_run. cbv zeta. fold tail. rewrite Hes.
    eexists. split; reflexivity.
  - intros es err Htx Hspan Hon Hes Hnil Hdir.
    rewrite wrapServer_run, newProcessors_run, Htx, Hspan. cbv zeta. fold tail.
    rewrite Hon, newTailSamplingProcessor_run. cbv zeta. fold tail. rewrite Hes.
    rewrite getBadgerDB_run. simpl badgerDB. rewrite Hnil.
    unfold tail_storageDir, client_created in Hdir. fold tail in Hdir.
    simpl paths_Data in *. rewrite Hdir.
    eexists. split; reflexivity.
  - intros es err Htx Hspan Hon Hes Hopens Hreject.
    rewrite wrapServer_run, newProcessors_run, Htx, Hspan. cbv zeta. fold tail.
    rewrite Hon.
    destruct (newTailSamplingProcessor_handed env args es _ Hes Hopens)
      as (w3 & -> & _).
    rewrite sampling_NewProcessor_run, Hreject.
    eexists. split; reflexivity.
  - intros err what msg. split; reflexivity.
Qed.

Lemma construction_failure_stops_the_server_witness :
  refused rejecting_txmetrics (example_args true) (intakeServer 0) fresh_process
    (errors_Wrapf_creating (errors_New "invalid aggregator config") txName) /\
  refused unavailable_storage (example_args true) (intakeServer 0) fresh_process
    (errors_Wrapf_creating
       (errors_Wrap (errors_New "cannot open directory") "failed to get Badger database")
       samplerName) /\
  refused validating out_of_range_args (intakeServer 0) fresh_process
    (errors_Wrapf_creating
       (errors_New "Policy: SampleRate unspecified or out of range") samplerName).
Proof.
  split; [|split].
  - destruct (construction_failure_stops_the_server rejecting_txmetrics (example_args true)
                (intakeServer 0) fresh_process) as (Htx & _).
    apply Htx. reflexivity.
  - destruct (construction_failure_stops_the_server unavailable_storage (example_args true)
                (intakeServer 0) fresh_process) as (_ & _ & _ & Hdir & _).
    eapply Hdir; reflexivity.
  - destruct (construction_failure_stops_the_server validating out_of_range_args
                (intakeServer 0) fresh_process) as (_ & _ & _ & _ & Hsampler & _).
    eapply Hsampler; try reflexivity. intros _. reflexivity.
Defined.

(** C1.  With tail sampling enabled, the chain that [wrapServer] installs
    is, in this order, the transaction metrics aggregator, the service
    destinations aggregator, the tail sampler and the batch processor that
    was there before; the wrapped server runs with those three processors.
    A batch sent through the chain is handed to the transaction metrics
    aggregator first and reaches the sampler after both aggregators, and
    every link is handed the batch as the links before it left it.
    [wrapServer] does return such a chain when the collaborators accept and
    the sampling registry exists. *)
Theorem chain_order env args runServer w :
  config.Enabled (config.Tail (config.Sampling (beater.Config args))) = true ->
  (forall w' args' run',
     wrapServer env args runServer w = Returned w' (Ok (args', run')) ->
     exists oid cfg,
       let tx := tx_aggregator args w in
       let span := span_aggregator args w in
       let sampler := {| name := samplerName; processor_ := SamplingProcessor oid cfg |} in
       let publisher := beater.BatchProcessor args in
       beater.BatchProcessor args'
       = Chained [Named tx; Named span; Named sampler; publisher] /\
       run' = wrappedRunServer runServer [tx; span; sampler] /\
       forall (Batch State : Type)
              (ProcessBatch : model_BatchProcessor -> State -> Batch -> State * Batch)
              (s : State) (batch : Batch),
         let '(s1, batch1) := ProcessBatch (Named tx) s batch in
         let '(s2, batch2) := ProcessBatch (Named span) s1 batch1 in
         let '(s3, batch3) := ProcessBatch (Named sampler) s2 batch2 in
         let '(s4, batch4) := ProcessBatch publisher s3 batch3 in
         Chained_ProcessBatch ProcessBatch
           [Named tx; Named span; Named sampler; publisher] s batch
         = (s4, batch4,
            [(Named tx, batch); (Named span, batch1);
             (Named sampler, batch2); (publisher, batch3)])) /\
  (accepts env args ->
   is_Some (samplingMonitoringRegistry w) ->
   exists w' args' run',
     wrapServer env args runServer w = Returned w' (Ok (args', run'))).
Proof.
  intros Hon. split.
  - intros w' args' run' H.
    rewrite wrapServer_run, newProcessors_run, Hon in H.
    destruct (txmetrics_invalid env _); [discriminate|].
    destruct (spanmetrics_invalid env _); [discriminate|].
    cbv zeta in H.
    destruct (newTailSamplingProcessor env args (aggregators_built args w))
      as [reason|w'' [err|sampler]] eqn:E; try discriminate.
    destruct (samplingMonitoringRegistry w''); [|discriminate].
    destruct (newTailSamplingProcessor_Ok env args _ _ _ E)
      as (oid & es & db & rw & _ & _ & _ & ->).
    injection H as _ <- <-.
    eexists _, _. cbv zeta. split; [reflexivity|]. split; [reflexivity|].
    intros Batch State ProcessBatch s batch. simpl.
    destruct (ProcessBatch _ s batch) as [s1 batch1].
    destruct (ProcessBatch _ s1 batch1) as [s2 batch2].
    destruct (ProcessBatch _ s2 batch2) as [s3 batch3].
    destruct (ProcessBatch _ s3 batch3) as [s4 batch4].
    reflexivity.
  - intros Hacc [registry Hregistry].
    rewrite wrapServer_run, newProcessors_run, Hon.
    destruct Hacc as (Htx & Hspan & Hrest). rewrite Htx, Hspan. cbv zeta.
    destruct (newTailSamplingProcessor_accepted env args (aggregators_built args w))
      as (w'' & oid & cfg & E); [repeat split; tauto|].
    destruct (newTailSamplingProcessor_returns env args (aggregators_built args w))
      as (w3 & r3 & E3 & _ & Hsame & _).
    rewrite E in *. injection E3 as <- <-.
    simpl in Hsame. rewrite Hsame, Hregistry.
    eexists _, _, _. reflexivity.
Qed.

Lemma chain_order_witness :
  exists w' args' run' oid cfg,
    wrapServer accepting (example_args true) (intakeServer 0) fresh_process
    = Returned w' (Ok (args', run')) /\
    beater.BatchProcessor args'
    = Chained [Named (tx_aggregator (example_args true) fresh_process);
               Named (span_aggregator (example_args true) fresh_process);
               Named {| name := samplerName; processor_ := SamplingProcessor oid cfg |};
               External 0].
Proof.
  destruct (chain_order accepting (example_args true) (intakeServer 0) fresh_process eq_refl)
    as [Hshape Hreturns].
  destruct Hreturns as (w' & args' & run' & E).
  { repeat split; try reflexivity. eexists; reflexivity. }
  { eexists; reflexivity. }
  destruct (Hshape w' args' run' E) as (oid & cfg & Hchain & _).
  exists w', args', run', oid, cfg. split; [exact E|exact Hchain].
Defined.

(** ** Registering twice *)

Lemma CollectMonitoring_nonempty (p : Processor) : CollectMonitoring p <> [].
Proof. destruct p; discriminate. Qed.

(** A registry that holds a variable has a non-empty snapshot. *)
Lemma CollectFlatSnapshot_nonempty (reg : gmap string MonitoringVar) name p :
  reg !! name = Some (FuncVar p) -> CollectFlatSnapshot reg <> [].
Proof.
  intros Hin Hempty.
  destruct (CollectMonitoring p) as [|metric rest] eqn:Hp;
    [exact (CollectMonitoring_nonempty p Hp)|].
  assert (Hel : (name +:+ "." +:+ metric) ∈ CollectFlatSnapshot reg).
  { unfold CollectFlatSnapshot. apply list_elem_of_bind.
    exists (name, FuncVar p). split.
    - simpl. rewrite Hp. simpl. apply elem_of_cons. left. reflexivity.
    - apply elem_of_map_to_list. exact Hin. }
  rewrite Hempty in Hel. inversion Hel.
Qed.

Lemma dom_reregister (reg : gmap string MonitoringVar) name v :
  is_Some (reg !! name) -> dom (<[name := v]> (delete name reg)) = dom reg.
Proof.
  intros Hin. apply elem_of_dom in Hin.
  rewrite dom_insert_L, dom_delete_L.
  apply set_eq. intros x.
  rewrite elem_of_union, elem_of_singleton, elem_of_difference, elem_of_singleton.
  split.
  - intros [->|[Hx _]]; assumption.
  - intros Hx. destruct (decide (x = name)); auto.
Qed.

(** C6.  After [newProcessors] has built and registered the processors
    once, with tail sampling enabled, building them again in the same
    process does not panic.  When the second call returns processors, the
    registries hold the same names as before, "txmetrics" and "tail" now
    stand for the new transaction metrics aggregator and the new sampler,
    every other name is untouched, and both registries have non-empty
    snapshots.  With accepting collaborators the second call does return
    processors. *)
Theorem registration_twice env args w0 w1 processors1 :
  config.Enabled (config.Tail (config.Sampling (beater.Config args))) = true ->
  newProcessors env args w0 = Returned w1 (Ok processors1) ->
  exists w2 r,
    newProcessors env args w1 = Returned w2 r /\
    (accepts env args -> exists processors2, r = Ok processors2) /\
    forall processors2,
      r = Ok processors2 ->
      exists (sampling1 sampling2 : gmap string MonitoringVar) agg sampler,
        processors2 !! 0%nat = Some agg /\
        processors2 !! 2%nat = Some sampler /\
        samplingMonitoringRegistry w1 = Some sampling1 /\
        samplingMonitoringRegistry w2 = Some sampling2 /\
        dom (aggregationMonitoringRegistry w2) = dom (aggregationMonitoringRegistry w1) /\
        dom sampling2 = dom sampling1 /\
        aggregationMonitoringRegistry w2 !! "txmetrics" = Some (FuncVar (processor_ agg)) /\
        sampling2 !! "tail" = Some (FuncVar (processor_ sampler)) /\
        (forall name, name <> "txmetrics" ->
           aggregationMonitoringRegistry w2 !! name
           = aggregationMonitoringRegistry w1 !! name) /\
        (forall name, name <> "tail" -> sampling2 !! name = sampling1 !! name) /\
        CollectFlatSnapshot (aggregationMonitoringRegistry w2) <> [] /\
        CollectFlatSnapshot sampling2 <> [].
Proof.
  intros Hon H1.
  (* the first call *)
  rewrite newProcessors_run, Hon in H1.
  destruct (txmetrics_invalid env _) eqn:Htx; [discriminate|].
  destruct (spanmetrics_invalid env _) eqn:Hspan; [discriminate|].
  cbv zeta in H1.
  destruct (newTailSamplingProcessor_returns env args (aggregators_built args w0))
    as (wa & ra & Ea & Hagg_a & Hsam_a & _).
  rewrite Ea in H1. destruct ra as [err|sampler1]; [discriminate|].
  destruct (samplingMonitoringRegistry wa) as [reg_a|] eqn:Hreg_a; [|discriminate].
  injection H1 as <- _.
  (* the second call *)
  rewrite newProcessors_run, Hon, Htx, Hspan. cbv zeta.
  set (w1 := with_samplingMonitoringRegistry _ wa).
  destruct (newTailSamplingProcessor_returns env args (aggregators_built args w1))
    as (wb & rb & Eb & Hagg_b & Hsam_b & _).
  rewrite Eb.
  assert (Hreg_b : samplingMonitoringRegistry wb
                   = Some (<["tail" := FuncVar sampler1]> (delete "tail" reg_a))).
  { rewrite Hsam_b. reflexivity. }
  destruct rb as [err|sampler2].
  { eexists _, _. split; [reflexivity|]. split; [|discriminate].
    intros Hacc.
    destruct (newTailSamplingProcessor_accepted env args (aggregators_built args w1) Hacc)
      as (? & ? & ? & E). congruence. }
  rewrite Hreg_b.
  eexists _, _. split; [reflexivity|]. split; [eauto|].
  intros processors2 [= <-].
  eexists _, _, _, _.
  split; [reflexivity|]. split; [reflexivity|].
  split; [reflexivity|]. split; [reflexivity|].
  cbn [aggregationMonitoringRegistry samplingMonitoringRegistry
       with_samplingMonitoringRegistry].
  rewrite Hagg_b.
  assert (Hagg1 : aggregationMonitoringRegistry w1
                  = <["txmetrics" := FuncVar (processor_ (tx_aggregator args w0))]>
                      (delete "txmetrics" (aggregationMonitoringRegistry w0))).
  { subst w1. cbn [aggregationMonitoringRegistry with_samplingMonitoringRegistry].
    rewrite Hagg_a. reflexivity. }
  change (aggregationMonitoringRegistry (aggregators_built args w1))
    with (<["txmetrics" := FuncVar (processor_ (tx_aggregator args w1))]>
            (delete "txmetrics" (aggregationMonitoringRegistry w1))).
  split; [|split; [|split; [|split; [|split; [|split; [|split]]]]]].
  - apply dom_reregister. rewrite Hagg1, lookup_insert_eq. eauto.
  - apply dom_reregister. rewrite lookup_insert_eq. eauto.
  - apply lookup_insert_eq.
  - apply lookup_insert_eq.
  - intros name Hname. rewrite lookup_insert_ne, lookup_delete_ne by congruence. reflexivity.
  - intros name Hname. rewrite lookup_insert_ne, lookup_delete_ne by congruence. reflexivity.
  - eapply CollectFlatSnapshot_nonempty. apply lookup_insert_eq.
  - eapply CollectFlatSnapshot_nonempty. apply lookup_insert_eq.
Qed.

Lemma registration_twice_witness :
  exists w1 processors1 w2 processors2,
    newProcessors accepting (example_args true) fresh_process = Returned w1 (Ok processors1) /\
    newProcessors accepting (example_args true) w1 = Returned w2 (Ok processors2) /\
    exists (sampling2 : gmap string MonitoringVar),
      samplingMonitoringRegistry w2 = Some sampling2 /\
      CollectFlatSnapshot (aggregationMonitoringRegistry w2) <> [] /\
      CollectFlatSnapshot sampling2 <> [].
Proof.
  assert (Hacc : accepts accepting (example_args true)).
  { repeat split; try reflexivity. eexists; reflexivity. }
  destruct (newProcessors accepting (example_args true) fresh_process)
    as [reason|w1 [err|processors1]] eqn:E1; try (vm_compute in E1; discriminate).
  destruct (registration_twice accepting (example_args true) fresh_process w1 processors1
              eq_refl E1) as (w2 & r & E2 & Hok & Hregs).
  destruct (Hok Hacc) as [processors2 ->].
  destruct (Hregs processors2 eq_refl)
    as (sampling1 & sampling2 & agg & sampler & _ & _ & _ & Hs2 & _ & _ & _ & _ & _ & _ & Ha & Hs).
  exists w1, processors1, w2, processors2. split; [reflexivity|]. split; [exact E2|].
  exists sampling2. auto.
Defined.

(** ** The goroutine group *)

Lemma app_snoc_inv {A : Type} (l l1 l2 : list A) (x y : A) :
  l ++ [x] = l1 ++ y :: l2 ->
  (l2 = [] /\ l1 = l /\ y = x) \/ (exists l2', l2 = l2' ++ [x] /\ l = l1 ++ y :: l2').
Proof.
  destruct l2 as [|z l2' _] using rev_ind; intros H.
  - left. apply app_inj_tail in H as [-> ->]. auto.
  - right. exists l2'.
    change (l1 ++ y :: l2' ++ [z]) with (l1 ++ (y :: l2') ++ [z]) in H.
    rewrite app_assoc in H. apply app_inj_tail in H as [-> ->]. auto.
Qed.

Lemma finish_observed err g : observed (finish err g) = observed g.
Proof. unfold finish. destruct err, (g_err g); reflexivity. Qed.

Lemma finish_serverStopped err g : serverStopped (finish err g) = serverStopped g.
Proof. unfold finish. destruct err, (g_err g); reflexivity. Qed.

Lemma finish_stop_pc err g : stop_pc (finish err g) = stop_pc g.
Proof. unfold finish. destruct err, (g_err g); reflexivity. Qed.

Lemma finish_run_exited err g : run_exited (finish err g) = run_exited g.
Proof. unfold finish. destruct err, (g_err g); reflexivity. Qed.

Lemma finish_server_exited err g : server_exited (finish err g) = server_exited g.
Proof. unfold finish. destruct err, (g_err g); reflexivity. Qed.

Lemma finish_returned err g : returned (finish err g) = returned g.
Proof. unfold finish. destruct err, (g_err g); reflexivity. Qed.

Lemma run_app args s1 s2 g :
  run args (s1 ++ s2) g = run args s1 g ≫= run args s2.
Proof.
  revert g. induction s1 as [|m s1 IH]; intros g; simpl; [reflexivity|].
  destruct (step args m g); [apply IH|reflexivity].
Qed.

(** An invariant of [step] holds after every schedule. *)
Lemma run_invariant args (P : Group -> Prop) :
  (forall m g g', P g -> step args m g = Some g' -> P g') ->
  forall schedule g g', P g -> run args schedule g = Some g' -> P g'.
Proof.
  intros Hstep schedule. induction schedule as [|m rest IH]; intros g g' Hg; simpl.
  - intros [= <-]. exact Hg.
  - destruct (step args m g) as [g1|] eqn:E; [|discriminate]. eauto.
Qed.

(** What one move does to what is observed. *)
Lemma step_observed args m g g' :
  step args m g = Some g' ->
  match m with
  | RunReturns i err => observed g' = observed g ++ [ObsRunReturned i err]
  | ServerReturns err =>
      observed g' = observed g ++ [ObsServerReturned err] /\ serverStopped g' = true
  | StopProceeds i =>
      observed g' = observed g ++ [ObsStop i (stopctx args)] /\
      serverStopped g = true /\ serverStopped g' = true /\
      stop_pc g !! i = Some StopBlocked /\ stop_pc g' = <[i := StopCalling]> (stop_pc g)
  | StopReturns i err =>
      observed g' = observed g ++ [ObsStopReturned i err] /\
      stop_pc g !! i = Some StopCalling /\ stop_pc g' = <[i := StopExited]> (stop_pc g)
  | GroupRecords _ _ | ParentCancels => observed g' = observed g
  end /\
  match m with
  | ServerReturns _ => True
  | _ => serverStopped g' = serverStopped g
  end /\
  match m with
  | StopProceeds _ | StopReturns _ _ => True
  | _ => stop_pc g' = stop_pc g
  end.
Proof.
  destruct m as [i err|err|i|i err|who err|]; simpl.
  - destruct (run_exited g !! i) as [[]|]; try discriminate. intros [= <-]. auto.
  - destruct (server_exited g); try discriminate. intros [= <-]. auto.
  - destruct (stop_pc g !! i) as [[]|] eqn:E; try discriminate.
    destruct (serverStopped g) eqn:S; try discriminate. intros [= <-]. simpl.
    rewrite S. auto 10.
  - destruct (stop_pc g !! i) as [[]|] eqn:E; try discriminate. intros [= <-].
    simpl. auto 10.
  - destruct (bool_decide _); try discriminate. intros [= <-].
    rewrite finish_observed, finish_serverStopped, finish_stop_pc. auto.
  - intros [= <-]. auto.
Qed.

(** What one move does to the list of the functions that have returned. *)
Lemma step_returned args m g g' :
  step args m g = Some g' ->
  match m with
  | GroupRecords who err =>
      (who, err) ∈ returned g /\
      forall p, p ∈ returned g' <-> p ∈ returned g /\ p <> (who, err)
  | _ =>
      match return_of m with
      | Some p => returned g' = returned g ++ [p]
      | None => returned g' = returned g
      end
  end.
Proof.
  destruct m as [i err|err|i|i err|who err|]; simpl.
  - destruct (run_exited g !! i) as [[]|]; try discriminate. intros [= <-]. reflexivity.
  - destruct (server_exited g); try discriminate. intros [= <-]. reflexivity.
  - destruct (stop_pc g !! i) as [[]|]; try discriminate.
    destruct (serverStopped g); try discriminate. intros [= <-]. reflexivity.
  - destruct (stop_pc g !! i) as [[]|]; try discriminate. intros [= <-]. reflexivity.
  - destruct (bool_decide _) eqn:Hin; try discriminate. intros [= <-].
    apply bool_decide_eq_true in Hin. split; [exact Hin|].
    intros p. rewrite finish_returned. simpl. rewrite list_elem_of_filter. tauto.
  - intros [= <-]. reflexivity.
Qed.

Lemma stop_order_snoc o obs :
  omap (fun o => match o with ObsStop i _ => Some i | _ => None end) (obs ++ [o])
  = omap (fun o => match o with ObsStop i _ => Some i | _ => None end) obs
    ++ match o with ObsStop i _ => [i] | _ => [] end.
Proof. rewrite omap_snoc. destruct o; reflexivity. Qed.

Lemma stops_after_server_snoc obs o :
  stops_after_server obs ->
  (forall i ctx, o = ObsStop i ctx -> exists err, ObsServerReturned err ∈ obs) ->
  stops_after_server (obs ++ [o]).
Proof.
  intros Hobs Ho before after i ctx Heq.
  apply app_snoc_inv in Heq as [(-> & -> & Heq)|(after' & -> & ->)].
  - eauto.
  - eapply Hobs. reflexivity.
Qed.

Lemma stop_order_elem g i :
  i ∈ stop_order g <-> exists ctx, ObsStop i ctx ∈ observed g.
Proof.
  unfold stop_order. rewrite list_elem_of_omap. split.
  - intros (o & Hin & Ho). destruct o; try discriminate. injection Ho as ->. eauto.
  - intros [ctx Hin]. exists (ObsStop i ctx). auto.
Qed.

Lemma stop_invariant_spawn args processors : stop_invariant args (spawn processors).
Proof.
  unfold stop_invariant, spawn; simpl. split; [discriminate|]. split.
  - intros [|? ?] after i ctx; discriminate.
  - split; [|constructor]. intros i ctx Hin. inversion Hin.
Qed.

Lemma stop_invariant_step args m g g' :
  stop_invariant args g -> step args m g = Some g' -> stop_invariant args g'.
Proof.
  intros (Hclosed & Hafter & Hstops & Hnodup) Hstep.
  pose proof (step_observed args m g g' Hstep) as (Hobs & Hmono & Hpc).
  unfold stop_invariant, stop_order in *.
  destruct m as [i err|err|i|i err|who err|].
  - rewrite Hobs, stop_order_snoc, app_nil_r. rewrite Hpc.
    split; [|split; [|split; [|exact Hnodup]]].
    + rewrite Hmono. intros S.
      destruct (Hclosed S) as [e He]. exists e. apply elem_of_app. auto.
    + apply stops_after_server_snoc; [exact Hafter|discriminate].
    + intros j ctx Hin. apply elem_of_app in Hin as [Hin|Hin]; [eauto|].
      apply list_elem_of_singleton in Hin. discriminate.
  - destruct Hobs as [Hobs Hnow]. rewrite Hobs, stop_order_snoc, app_nil_r.
    rewrite Hpc.
    split; [|split; [|split; [|exact Hnodup]]].
    + intros _. exists err. apply elem_of_app. right. apply list_elem_of_singleton. reflexivity.
    + apply stops_after_server_snoc; [exact Hafter|discriminate].
    + intros j ctx Hin. apply elem_of_app in Hin as [Hin|Hin]; [eauto|].
      apply list_elem_of_singleton in Hin. discriminate.
  - destruct Hobs as (Hobs & Sg & Sg' & Hblocked & Hpc').
    rewrite Hobs, stop_order_snoc. rewrite Hpc'.
    assert (Hlt : (i < length (stop_pc g))%nat) by (eapply lookup_lt_Some; eauto).
    split; [|split; [|split]].
    + intros _. destruct (Hclosed Sg) as [e He]. exists e. apply elem_of_app. auto.
    + apply stops_after_server_snoc; [exact Hafter|]. intros _ _ _. auto.
    + intros j ctx Hin. apply elem_of_app in Hin as [Hin|Hin].
      * destruct (Hstops j ctx Hin) as [-> Hj]. split; [reflexivity|].
        destruct (decide (j = i)) as [->|Hne].
        -- rewrite list_lookup_insert_eq by exact Hlt. auto.
        -- rewrite list_lookup_insert_ne by congruence. exact Hj.
      * apply list_elem_of_singleton in Hin. injection Hin as -> ->.
        split; [reflexivity|]. rewrite list_lookup_insert_eq by exact Hlt. auto.
    + apply NoDup_app. split; [exact Hnodup|]. split; [|apply NoDup_singleton].
      intros j Hj Hji. apply list_elem_of_singleton in Hji. subst j.
      apply (stop_order_elem g i) in Hj as [ctx Hin].
      destruct (Hstops i ctx Hin) as [_ [Hc|Hc]]; congruence.
  - destruct Hobs as (Hobs & Hcalling & Hpc').
    rewrite Hobs, stop_order_snoc, app_nil_r. rewrite Hpc'.
    assert (Hlt : (i < length (stop_pc g))%nat) by (eapply lookup_lt_Some; eauto).
    split; [|split; [|split; [|exact Hnodup]]].
    + rewrite Hmono. intros S.
      destruct (Hclosed S) as [e He]. exists e. apply elem_of_app. auto.
    + apply stops_after_server_snoc; [exact Hafter|discriminate].
    + intros j ctx Hin. apply elem_of_app in Hin as [Hin|Hin].
      * destruct (Hstops j ctx Hin) as [-> Hj]. split; [reflexivity|].
        destruct (decide (j = i)) as [->|Hne].
        -- rewrite list_lookup_insert_eq by exact Hlt. auto.
        -- rewrite list_lookup_insert_ne by congruence. exact Hj.
      * apply list_elem_of_singleton in Hin. discriminate.
  - rewrite Hobs, Hpc, Hmono. auto.
  - rewrite Hobs, Hpc, Hmono. auto.
Qed.

Lemma stop_pc_length args processors schedule g :
  run args schedule (spawn processors) = Some g ->
  length (stop_pc g) = length processors.
Proof.
  apply (run_invariant args (fun g => length (stop_pc g) = length processors)).
  - intros m g0 g1 Hlen Hstep.
    pose proof (step_observed args m g0 g1 Hstep) as (Hobs & _ & Hpc).
    destruct m; try (rewrite Hpc; exact Hlen).
    + destruct Hobs as (_ & _ & _ & _ & ->). rewrite length_insert. exact Hlen.
    + destruct Hobs as (_ & _ & ->). rewrite length_insert. exact Hlen.
  - simpl. apply length_replicate.
Qed.

(** Once the channel is closed, the stop goroutines that still wait can
    proceed in any order. *)
Lemma stops_proceed_in_any_order args order : forall g,
  serverStopped g = true ->
  NoDup order ->
  (forall i, i ∈ order -> stop_pc g !! i = Some StopBlocked) ->
  exists g',
    run args (StopProceeds <$> order) g = Some g' /\
    stop_order g' = stop_order g ++ order.
Proof.
  induction order as [|i rest IH]; intros g Hclosed Hnodup Hblocked; simpl.
  - exists g. rewrite app_nil_r. auto.
  - apply NoDup_cons in Hnodup as [Hnotin Hnodup].
    rewrite (Hblocked i) by (apply elem_of_cons; auto). rewrite Hclosed.
    set (g1 := observe _ _).
    destruct (IH g1) as (g' & Hrun & Horder); [exact Hclosed|exact Hnodup| |].
    + intros j Hj. subst g1. simpl.
      rewrite list_lookup_insert_ne by (intros ->; contradiction).
      apply Hblocked. apply elem_of_cons. auto.
    + exists g'. split; [exact Hrun|]. rewrite Horder. subst g1.
      unfold stop_order. simpl. rewrite stop_order_snoc, <- app_assoc. reflexivity.
Qed.

(** C2, amended.  In every run of the group, a processor's
    [Stop] is called only after the server has returned, at most once, and
    with the context [stopctx]: a context with the timeout
    [ShutdownTimeout] when that is positive, the background context
    otherwise.  The order among the processors is not fixed: once the
    server has returned, the [Stop] calls can happen in any order. *)
Theorem stops_follow_the_server args processors :
  (forall schedule g,
     run args schedule (spawn processors) = Some g ->
     stops_after_server (observed g) /\
     (forall i ctx,
        ObsStop i ctx ∈ observed g ->
        ctx = stopctx args /\ (i < length processors)%nat) /\
     NoDup (stop_order g)) /\
  (config.ShutdownTimeout (beater.Config args) > 0 ->
   stopctx args = context_WithTimeout (config.ShutdownTimeout (beater.Config args))) /\
  (config.ShutdownTimeout (beater.Config args) <= 0 ->
   stopctx args = context_Background) /\
  (forall order,
     NoDup order ->
     (forall i, i ∈ order -> (i < length processors)%nat) ->
     exists g,
       run args (ServerReturns None :: (StopProceeds <$> order)) (spawn processors) = Some g /\
       stop_order g = order).
Proof.
  split; [|split; [|split]].
  - intros schedule g Hrun.
    assert (Hinv : stop_invariant args g).
    { revert Hrun. apply (run_invariant args (stop_invariant args)).
      - intros m g0 g1. apply stop_invariant_step.
      - apply stop_invariant_spawn. }
    destruct Hinv as (_ & Hafter & Hstops & Hnodup).
    split; [exact Hafter|]. split; [|exact Hnodup].
    intros i ctx Hin. destruct (Hstops i ctx Hin) as [-> Hpc]. split; [reflexivity|].
    rewrite <- (stop_pc_length args processors schedule g Hrun).
    destruct Hpc as [Hpc|Hpc]; eapply lookup_lt_Some; exact Hpc.
  - intros Hpos. unfold stopctx. rewrite bool_decide_eq_true_2 by exact Hpos. reflexivity.
  - intros Hneg. unfold stopctx. rewrite bool_decide_eq_false_2 by lia. reflexivity.
  - intros order Hnodup Hrange.
    set (g1 := return_to_group ServerOf None
                 (observe (ObsServerReturned None) (close_serverStopped (spawn processors)))).
    change (run args (ServerReturns None :: (StopProceeds <$> order)) (spawn processors))
      with (run args (StopProceeds <$> order) g1).
    destruct (stops_proceed_in_any_order args order g1) as (g' & Hrun & Horder).
    + reflexivity.
    + exact Hnodup.
    + intros i Hi. subst g1. simpl. apply lookup_replicate_2. auto.
    + exists g'. split; [exact Hrun|]. rewrite Horder. reflexivity.
Qed.

Lemma stops_follow_the_server_witness :
  exists g,
    run (example_args true) stop_first_to_last (spawn example_processors) = Some g /\
    stops_after_server (observed g) /\
    (forall i ctx,
       ObsStop i ctx ∈ observed g ->
       ctx = context_WithTimeout 5000000000 /\ (i < 3)%nat) /\
    NoDup (stop_order g).
Proof.
  eexists. split; [vm_compute; reflexivity|].
  destruct (stops_follow_the_server (example_args true) example_processors) as [Hruns _].
  eapply (Hruns stop_first_to_last). vm_compute. reflexivity.
Defined.

(** C2 as the specification states it does not hold: in this complete run
    of the three processors of the example the transaction metrics
    aggregator is stopped first and the sampler last. *)
Lemma stops_not_root_to_leaves :
  exists g,
    run (example_args true) stop_first_to_last (spawn example_processors) = Some g /\
    runServerWithProcessors (example_args true) example_processors stop_first_to_last
    = Some None /\
    name <$> example_processors = [txName; spanName; samplerName] /\
    stop_order g = [0; 1; 2]%nat /\
    ~ stops_root_to_leaves (length example_processors) (stop_order g).
Proof.
  eexists. split; [vm_compute; reflexivity|].
  split; [vm_compute; reflexivity|].
  split; [vm_compute; reflexivity|].
  split; [vm_compute; reflexivity|].
  intros Horder.
  assert (Hin : 2%nat ∈ @nil nat).
  { apply (Horder [] [1; 2]%nat 0%nat); [vm_compute; reflexivity|vm_compute; lia]. }
  inversion Hin.
Qed.

(** ** The group winds down *)

Lemma sum_list_append (l1 l2 : list nat) :
  sum_list (l1 ++ l2) = (sum_list l1 + sum_list l2)%nat.
Proof. induction l1 as [|n l1 IH]; simpl; [reflexivity|rewrite IH; lia]. Qed.

Lemma sum_list_insert {A : Type} (f : A -> nat) (l : list A) i x y :
  l !! i = Some x ->
  (sum_list (f <$> <[i := y]> l) + f x = sum_list (f <$> l) + f y)%nat.
Proof.
  intros Hi.
  rewrite insert_take_drop by (eapply lookup_lt_Some; eauto).
  rewrite <- (take_drop_middle l i x Hi) at 3.
  rewrite !fmap_app, !sum_list_append. simpl. lia.
Qed.

Lemma forallb_false_lookup {A : Type} (f : A -> bool) (l : list A) :
  forallb f l = false -> exists i x, l !! i = Some x /\ f x = false.
Proof.
  induction l as [|a l IH]; simpl; [discriminate|].
  destruct (f a) eqn:E; simpl.
  - intros H. destruct (IH H) as (i & x & Hi & Hx). exists (S i), x. auto.
  - intros _. exists 0%nat, a. auto.
Qed.

Lemma finish_pending err g : pending (finish err g) = pending g.
Proof. unfold finish. destruct err, (g_err g); reflexivity. Qed.

(** While a goroutine is not done, one of them can move: a wrapper whose
    function has returned can run; failing that, a function can return,
    or a stop goroutine can receive from the closed channel. *)
Lemma group_can_step args g :
  (server_exited g = true -> serverStopped g = true) ->
  all_exited g = false ->
  exists m g',
    step args m g = Some g' /\
    (pending g' < pending g)%nat /\
    (server_exited g' = true -> serverStopped g' = true).
Proof.
  intros Hclosed Hnot. unfold all_exited in Hnot.
  destruct (returned g) as [|[who err] waiting] eqn:Hreturned.
  - simpl in Hnot. destruct (server_exited g) eqn:Hserver.
    + specialize (Hclosed eq_refl).
      destruct (forallb (fun b : bool => b) (run_exited g)) eqn:Hruns.
      * simpl in Hnot. apply forallb_false_lookup in Hnot as (i & pc & Hi & Hpc).
        destruct pc; try discriminate.
        -- exists (StopProceeds i). eexists. simpl. rewrite Hi, Hclosed.
           split; [reflexivity|]. split; [|simpl; auto].
           unfold pending. simpl. rewrite Hserver.
           pose proof (sum_list_insert stop_steps (stop_pc g) i StopBlocked StopCalling Hi).
           simpl in *. lia.
        -- exists (StopReturns i None). eexists. simpl. rewrite Hi.
           split; [reflexivity|]. split; [|simpl; auto].
           unfold pending. simpl. rewrite Hserver, Hreturned.
           pose proof (sum_list_insert stop_steps (stop_pc g) i StopCalling StopExited Hi).
           simpl in *. lia.
      * apply forallb_false_lookup in Hruns as (i & b & Hi & Hb). subst b.
        exists (RunReturns i None). eexists. simpl. rewrite Hi.
        split; [reflexivity|]. split; [|simpl; auto].
        unfold pending. simpl. rewrite Hserver, Hreturned.
        pose proof (sum_list_insert run_steps (run_exited g) i false true Hi).
        simpl in *. lia.
    + exists (ServerReturns None). eexists. simpl. rewrite Hserver.
      split; [reflexivity|]. split; [|simpl; auto].
      unfold pending. simpl. rewrite Hserver, Hreturned. simpl. lia.
  - exists (GroupRecords who err). eexists. simpl.
    rewrite bool_decide_eq_true_2 by (rewrite Hreturned; apply elem_of_cons; auto).
    split; [reflexivity|]. rewrite finish_pending, finish_server_exited, finish_serverStopped.
    split; [|exact Hclosed].
    unfold pending. simpl.
    assert ((length (filter (.≠ (who, err)) (returned g)) < length (returned g))%nat).
    { apply (length_filter_lt _ _ (who, err)).
      - rewrite Hreturned. apply elem_of_cons. auto.
      - intros H. apply H. reflexivity. }
    lia.
Qed.

(** So every group can wind down: some schedule takes it to the state in
    which [g.Wait()] returns. *)
Lemma group_winds_down args : forall n g,
  (pending g <= n)%nat ->
  (server_exited g = true -> serverStopped g = true) ->
  exists rest g', run args rest g = Some g' /\ all_exited g' = true.
Proof.
  induction n as [|n IH]; intros g Hn Hclosed.
  - destruct (all_exited g) eqn:Hall.
    + exists [], g. auto.
    + destruct (group_can_step args g Hclosed Hall) as (m & g' & _ & Hlt & _). lia.
  - destruct (all_exited g) eqn:Hall.
    + exists [], g. auto.
    + destruct (group_can_step args g Hclosed Hall) as (m & g1 & Hstep & Hlt & Hclosed1).
      destruct (IH g1) as (rest & g' & Hrun & Hdone); [lia|exact Hclosed1|].
      exists (m :: rest), g'. simpl. rewrite Hstep. auto.
Qed.

Lemma server_exited_closed args processors schedule g :
  run args schedule (spawn processors) = Some g ->
  server_exited g = true -> serverStopped g = true.
Proof.
  apply (run_invariant args (fun g => server_exited g = true -> serverStopped g = true)).
  - intros m g0 g1 Hinv Hstep.
    destruct m as [i err|err|i|i err|who err|]; simpl in Hstep.
    + destruct (run_exited g0 !! i) as [[]|]; try discriminate. injection Hstep as <-.
      exact Hinv.
    + destruct (server_exited g0); try discriminate. injection Hstep as <-. reflexivity.
    + destruct (stop_pc g0 !! i) as [[]|]; try discriminate.
      destruct (serverStopped g0) eqn:S; try discriminate. injection Hstep as <-.
      simpl. rewrite S. auto.
    + destruct (stop_pc g0 !! i) as [[]|]; try discriminate. injection Hstep as <-.
      exact Hinv.
    + destruct (bool_decide _); try discriminate. injection Hstep as <-.
      rewrite finish_server_exited, finish_serverStopped. exact Hinv.
    + injection Hstep as <-. exact Hinv.
  - discriminate.
Qed.

Lemma run_exited_length args processors schedule g :
  run args schedule (spawn processors) = Some g ->
  length (run_exited g) = length processors.
Proof.
  apply (run_invariant args (fun g => length (run_exited g) = length processors)).
  - intros m g0 g1 Hlen Hstep.
    destruct m as [i err|err|i|i err|who err|]; simpl in Hstep.
    + destruct (run_exited g0 !! i) as [[]|]; try discriminate. injection Hstep as <-.
      simpl. rewrite length_insert. exact Hlen.
    + destruct (server_exited g0); try discriminate. injection Hstep as <-. exact Hlen.
    + destruct (stop_pc g0 !! i) as [[]|]; try discriminate.
      destruct (serverStopped g0); try discriminate. injection Hstep as <-. exact Hlen.
    + destruct (stop_pc g0 !! i) as [[]|]; try discriminate. injection Hstep as <-.
      exact Hlen.
    + destruct (bool_decide _); try discriminate. injection Hstep as <-.
      rewrite finish_run_exited. exact Hlen.
    + injection Hstep as <-. exact Hlen.
  - simpl. apply length_replicate.
Qed.
(** ** Errors in the group *)

Lemma step_g_err args m g g' :
  step args m g = Some g' ->
  g_err g' = match g_err g with
             | Some e => Some e
             | None => handed_error m
             end /\
  (ctx_cancelled g = true -> ctx_cancelled g' = true) /\
  (g_err g = None -> is_Some (handed_error m) -> ctx_cancelled g' = true).
Proof.
  assert (Hfinish : forall err g0,
            g_err (finish err g0) = match g_err g0 with
                                    | Some e => Some e
                                    | None => err
                                    end /\
            (ctx_cancelled g0 = true -> ctx_cancelled (finish err g0) = true) /\
            (g_err g0 = None -> is_Some err -> ctx_cancelled (finish err g0) = true)).
  { intros err g0. unfold finish.
    destruct err as [e|], (g_err g0) as [e0|] eqn:E; simpl; rewrite ?E;
      repeat split; auto; try discriminate.
    all: intros _ [? ?]; discriminate. }
  assert (Hquiet : forall g0 : Group,
            g_err g0 = match g_err g0 with
                       | Some e => Some e
                       | None => None
                       end).
  { intros g0. destruct (g_err g0); reflexivity. }
  destruct m as [i err|err|i|i err|who err|]; simpl.
  - destruct (run_exited g !! i) as [[]|]; try discriminate. intros [= <-]. simpl.
    split; [apply Hquiet|]. split; [auto|]. intros _ [? ?]; discriminate.
  - destruct (server_exited g); try discriminate. intros [= <-]. simpl.
    split; [apply Hquiet|]. split; [auto|]. intros _ [? ?]; discriminate.
  - destruct (stop_pc g !! i) as [[]|]; try discriminate.
    destruct (serverStopped g); try discriminate. intros [= <-]. simpl.
    split; [apply Hquiet|]. split; [auto|]. intros _ [? ?]; discriminate.
  - destruct (stop_pc g !! i) as [[]|]; try discriminate. intros [= <-]. simpl.
    split; [apply Hquiet|]. split; [auto|]. intros _ [? ?]; discriminate.
  - destruct (bool_decide _); try discriminate. intros [= <-].
    exact (Hfinish err (with_returned (filter (.≠ (who, err)) (returned g)) g)).
  - intros [= <-]. simpl.
    split; [apply Hquiet|]. split; [auto|]. intros _ [? ?]; discriminate.
Qed.

(** The error of the group is the first one handed to it, and it comes
    with the cancellation of the context. *)
Lemma run_g_err args schedule : forall g g',
  run args schedule g = Some g' ->
  (is_Some (g_err g) -> ctx_cancelled g = true) ->
  g_err g' = match g_err g with
             | Some e => Some e
             | None => first_error schedule
             end /\
  (is_Some (g_err g') -> ctx_cancelled g' = true).
Proof.
  induction schedule as [|m rest IH]; intros g g' Hrun Hinv; simpl in *.
  - injection Hrun as <-. split; [destruct (g_err g); reflexivity|exact Hinv].
  - destruct (step args m g) as [g1|] eqn:Hstep; [|discriminate].
    destruct (step_g_err args m g g1 Hstep) as (Herr & Hkeep & Hset).
    destruct (IH g1 g' Hrun) as [IHerr IHinv].
    { rewrite Herr. destruct (g_err g) as [e|] eqn:E.
      - intros _. apply Hkeep, Hinv. eauto.
      - intros Hsome. apply Hset; auto. }
    split; [|exact IHinv].
    rewrite IHerr, Herr. destruct (g_err g); [reflexivity|].
    destruct (handed_error m); reflexivity.
Qed.

Lemma first_error_app s1 s2 :
  first_error (s1 ++ s2) = match first_error s1 with
                           | Some e => Some e
                           | None => first_error s2
                           end.
Proof.
  induction s1 as [|m s1 IH]; simpl; [reflexivity|].
  destruct (handed_error m); [reflexivity|exact IH].
Qed.

Lemma first_error_None schedule :
  first_error schedule = None <-> forall m, m ∈ schedule -> handed_error m = None.
Proof.
  induction schedule as [|m rest IH]; simpl.
  - split; [|reflexivity]. intros _ m Hin. inversion Hin.
  - destruct (handed_error m) as [e|] eqn:Hm.
    + split; [discriminate|]. intros Hall.
      rewrite <- Hm. apply Hall. apply elem_of_cons. auto.
    + rewrite IH. split.
      * intros Hall m' Hin. apply elem_of_cons in Hin as [->|Hin]; auto.
      * intros Hall m' Hin. apply Hall. apply elem_of_cons. auto.
Qed.

Lemma first_error_Some schedule e :
  first_error schedule = Some e -> exists m, m ∈ schedule /\ handed_error m = Some e.
Proof.
  induction schedule as [|m rest IH]; simpl; [discriminate|].
  destruct (handed_error m) as [e0|] eqn:Hm.
  - intros [= <-]. exists m. split; [apply elem_of_cons; auto|exact Hm].
  - intros H. destruct (IH H) as (m' & Hin & Hm'). exists m'.
    split; [apply elem_of_cons; auto|exact Hm'].
Qed.

(** The wrappers and the functions of a run: a wrapper runs only for a
    function that has returned, with what it returned, and a function that
    has returned waits for its wrapper until the wrapper runs. *)
Lemma run_returned args schedule : forall g g',
  run args schedule g = Some g' ->
  (forall who err,
     GroupRecords who err ∈ schedule ->
     (who, err) ∈ returned g \/ exists m, m ∈ schedule /\ return_of m = Some (who, err)) /\
  (forall p,
     p ∈ returned g \/ (exists m, m ∈ schedule /\ return_of m = Some p) ->
     p ∈ returned g' \/ GroupRecords p.1 p.2 ∈ schedule).
Proof.
  induction schedule as [|m rest IH]; intros g g' Hrun; simpl in Hrun.
  - injection Hrun as <-. split.
    + intros who err Hin. inversion Hin.
    + intros p [Hp|(m & Hin & _)]; [auto|inversion Hin].
  - destruct (step args m g) as [g1|] eqn:Hstep; [|discriminate].
    destruct (IH g1 g' Hrun) as [IHa IHb].
    pose proof (step_returned args m g g1 Hstep) as Hm.
    split.
    + intros who err Hin. apply elem_of_cons in Hin as [<-|Hin].
      { destruct Hm as [Hthere _]. auto. }
      destruct (IHa who err Hin) as [Hp|(m' & Hin' & Hm')].
      * destruct m as [i e|e|i|i e|who0 e|]; simpl in Hm.
        all: try (rewrite Hm in Hp; apply elem_of_app in Hp as [Hp|Hp]; [auto|];
                  apply list_elem_of_singleton in Hp; right; eexists;
                  split; [apply elem_of_cons; left; reflexivity|];
                  simpl; rewrite Hp; reflexivity).
        -- rewrite Hm in Hp. auto.
        -- destruct Hm as [_ Hm]. apply Hm in Hp as [Hp _]. auto.
        -- rewrite Hm in Hp. auto.
      * right. exists m'. split; [apply elem_of_cons; auto|exact Hm'].
    + intros p Hp.
      assert (Hnext : p ∈ returned g1 \/ m = GroupRecords p.1 p.2 \/
                      exists m', m' ∈ rest /\ return_of m' = Some p).
      { destruct Hp as [Hp|(m' & Hin & Hm')].
        - destruct m as [i e|e|i|i e|who0 e|]; simpl in Hm;
            try (left; rewrite Hm; try apply elem_of_app; auto; fail).
          destruct Hm as [_ Hm].
          destruct (decide (p = (who0, e))) as [->|Hne]; [auto|].
          left. apply Hm. auto.
        - apply elem_of_cons in Hin as [->|Hin]; [|eauto].
          left. destruct m as [i e|e|i|i e|who0 e|]; simpl in Hm, Hm'; try discriminate;
            injection Hm' as <-; rewrite Hm; apply elem_of_app; right;
            apply list_elem_of_singleton; reflexivity. }
      destruct Hnext as [Hin|[->|Hlater]].
      * destruct (IHb p (or_introl Hin)) as [?|?]; [auto|].
        right. apply elem_of_cons. auto.
      * right. apply elem_of_cons. auto.
      * destruct (IHb p (or_intror Hlater)) as [?|?]; [auto|].
        right. apply elem_of_cons. auto.
Qed.

(** In a run of the group from its start. *)
Lemma recorded_was_returned args processors schedule g who err :
  run args schedule (spawn processors) = Some g ->
  GroupRecords who err ∈ schedule ->
  exists m, m ∈ schedule /\ return_of m = Some (who, err).
Proof.
  intros Hrun Hin. destruct (run_returned args schedule _ g Hrun) as [Ha _].
  destruct (Ha who err Hin) as [Hp|H]; [inversion Hp|exact H].
Qed.

Lemma returned_is_recorded args processors schedule g m who err :
  run args schedule (spawn processors) = Some g ->
  m ∈ schedule -> return_of m = Some (who, err) ->
  (who, err) ∈ returned g \/ GroupRecords who err ∈ schedule.
Proof.
  intros Hrun Hin Hm. destruct (run_returned args schedule _ g Hrun) as [_ Hb].
  apply (Hb (who, err)). right. eauto.
Qed.

Lemma all_exited_returned g : all_exited g = true -> returned g = [].
Proof.
  unfold all_exited. destruct (returned g); [reflexivity|discriminate].
Qed.

(** C3, amended.  When the [Run] of a processor has returned a non-nil
    error, the error is on its way to the group: it waits for the wrapper of
    the goroutine, or the wrapper has run.  Once the wrapper has run, the
    group has an error and its context is cancelled, which is the signal
    for the server to stop.  The error of the group is the first non-nil
    error that a wrapper handed to it: the error of this [Run] when none
    was handed over before it, the earlier one otherwise.
    [runServerWithProcessors] returns only when every wrapper has run, and
    then it returns that error, which is not nil; and the group can always
    get there. *)
Theorem failed_run_aborts_the_group args processors schedule i e g :
  run args schedule (spawn processors) = Some g ->
  RunReturns i (Some e) ∈ schedule ->
  ((RunOf i, Some e) ∈ returned g \/ GroupRecords (RunOf i) (Some e) ∈ schedule) /\
  (GroupRecords (RunOf i) (Some e) ∈ schedule ->
   exists first,
     first_error schedule = Some first /\ g_err g = Some first /\ ctx_cancelled g = true) /\
  (forall before after,
     schedule = before ++ GroupRecords (RunOf i) (Some e) :: after ->
     first_error before = None -> g_err g = Some e) /\
  (forall r,
     runServerWithProcessors args processors schedule = Some r ->
     exists first,
       r = Some first /\ first_error schedule = Some first /\ ctx_cancelled g = true) /\
  (exists rest first,
     runServerWithProcessors args processors (schedule ++ rest) = Some (Some first) /\
     (forall e0, g_err g = Some e0 -> first = e0)).
Proof.
  intros Hrun Hreturns.
  assert (Hspawn : is_Some (g_err (spawn processors)) ->
                   ctx_cancelled (spawn processors) = true).
  { simpl. intros [? ?]. discriminate. }
  destruct (run_g_err args _ _ _ Hrun Hspawn) as [Herr Hcancel]. simpl in Herr.
  pose proof (returned_is_recorded args processors schedule g _ (RunOf i) (Some e)
                Hrun Hreturns eq_refl) as Hway.
  assert (Hrecorded : GroupRecords (RunOf i) (Some e) ∈ schedule ->
                      exists first,
                        first_error schedule = Some first /\ g_err g = Some first /\
                        ctx_cancelled g = true).
  { intros Hin. destruct (first_error schedule) as [first|] eqn:Hfirst.
    - exists first. split; [reflexivity|]. split; [exact Herr|].
      apply Hcancel. rewrite Herr. eauto.
    - rewrite first_error_None in Hfirst. specialize (Hfirst _ Hin). discriminate. }
  assert (Hsome : processors <> []).
  { intros ->. apply list_elem_of_lookup_1 in Hreturns as [k Hk].
    rewrite <- (take_drop_middle schedule k _ Hk) in Hrun.
    rewrite run_app in Hrun.
    destruct (run args (take k schedule) (spawn [])) as [g1|] eqn:Hbefore; [|discriminate].
    simpl in Hrun.
    destruct (run_exited g1 !! i) as [b|] eqn:Hi; [|discriminate].
    apply lookup_lt_Some in Hi.
    rewrite (run_exited_length args [] _ g1 Hbefore) in Hi. simpl in Hi. lia. }
  split; [exact Hway|]. split; [exact Hrecorded|]. split; [|split].
  - intros before after -> Hquiet. rewrite Herr, first_error_app, Hquiet. reflexivity.
  - intros r Hr. unfold runServerWithProcessors in Hr.
    destruct processors as [|p processors']; [congruence|].
    rewrite Hrun in Hr. simpl in Hr. unfold Wait in Hr.
    destruct (all_exited g) eqn:Hall; [|discriminate]. injection Hr as <-.
    destruct Hway as [Hwaits|Hin].
    { rewrite (all_exited_returned g Hall) in Hwaits. inversion Hwaits. }
    destruct (Hrecorded Hin) as (first & Hfirst & Hg & Hc).
    exists first. auto.
  - destruct (group_winds_down args (pending g) g) as (rest & g' & Hrest & Hdone);
      [lia|exact (server_exited_closed args processors _ g Hrun)|].
    assert (Hall : run args (schedule ++ rest) (spawn processors) = Some g').
    { rewrite run_app, Hrun. exact Hrest. }
    destruct (run_g_err args _ _ _ Hall Hspawn) as [Herr' _]. simpl in Herr'.
    assert (Hin : GroupRecords (RunOf i) (Some e) ∈ schedule ++ rest).
    { destruct (returned_is_recorded args processors (schedule ++ rest) g'
                  (RunReturns i (Some e)) (RunOf i) (Some e) Hall)
        as [Hwaits|Hin]; [|reflexivity| |exact Hin].
      - apply elem_of_app. auto.
      - rewrite (all_exited_returned g' Hdone) in Hwaits. inversion Hwaits. }
    destruct (first_error (schedule ++ rest)) as [first|] eqn:Hfirst.
    + exists rest, first. split.
      * unfold runServerWithProcessors. destruct processors as [|p processors']; [congruence|].
        rewrite Hall. simpl. unfold Wait. rewrite Hdone, Herr'. reflexivity.
      * intros e0 He0. rewrite first_error_app in Hfirst. rewrite Herr in He0.
        rewrite He0 in Hfirst. congruence.
    + rewrite first_error_None in Hfirst. specialize (Hfirst _ Hin). discriminate.
Qed.

Lemma failed_run_aborts_the_group_witness :
  exists g,
    run (example_args true)
      [RunReturns 0 (Some (errors_New "storage"));
       GroupRecords (RunOf 0) (Some (errors_New "storage"));
       ServerReturns None; StopProceeds 1] (spawn example_processors) = Some g /\
    g_err g = Some (errors_New "storage") /\ ctx_cancelled g = true.
Proof.
  destruct (run (example_args true)
              [RunReturns 0 (Some (errors_New "storage"));
               GroupRecords (RunOf 0) (Some (errors_New "storage"));
               ServerReturns None; StopProceeds 1] (spawn example_processors))
    as [g|] eqn:Hrun; [|vm_compute in Hrun; discriminate].
  destruct (failed_run_aborts_the_group (example_args true) example_processors _
              0%nat (errors_New "storage") g Hrun)
    as (_ & Hrecorded & Hfirst & _).
  { apply elem_of_cons. auto. }
  exists g. split; [reflexivity|]. split.
  - apply (Hfirst [RunReturns 0 (Some (errors_New "storage"))]
             [ServerReturns None; StopProceeds 1]); reflexivity.
  - destruct Hrecorded as (first & _ & _ & Hc); [|exact Hc].
    apply elem_of_cons. right. apply elem_of_cons. auto.
Defined.

(** C3 as the specification states it does not hold for a processor that
    is not the first to fail: here the [Run] of the service destinations
    aggregator returns the error "second", and [runServerWithProcessors]
    returns the error that the transaction metrics aggregator returned
    before it. *)
Lemma later_failure_is_not_returned :
  RunReturns 1 (Some (errors_New "second"))
    ∈ two_failures (errors_New "first") (errors_New "second") /\
  runServerWithProcessors (example_args true) example_processors
    (two_failures (errors_New "first") (errors_New "second"))
  = Some (Some (errors_New "first")) /\
  runServerWithProcessors (example_args true) example_processors
    (two_failures (errors_New "first") (errors_New "second"))
  <> Some (Some (errors_New "second")).
Proof.
  split; [|split].
  - unfold two_failures. do 2 (apply elem_of_cons; right). apply elem_of_cons. left.
    reflexivity.
  - vm_compute. reflexivity.
  - vm_compute. discriminate.
Qed.


(** * Further properties *)

(** ** The goroutine group: results, stops and cancellation *)

Lemma returned_error_return_of m :
  returned_error m = match return_of m with
                     | Some (_, err) => err
                     | None => None
                     end.
Proof. destruct m; reflexivity. Qed.

Lemma return_of_returned_error m who err :
  return_of m = Some (who, err) -> returned_error m = err.
Proof. intros H. rewrite returned_error_return_of, H. reflexivity. Qed.

Lemma returns_of_elem m schedule :
  m ∈ schedule -> m = ParentCancels \/ m ∈ returns_of schedule.
Proof.
  intros Hin. destruct m; try (left; reflexivity); right; unfold returns_of;
    apply list_elem_of_omap; eexists; (split; [exact Hin|reflexivity]).
Qed.

Lemma returns_of_subset m schedule : m ∈ returns_of schedule -> m ∈ schedule.
Proof.
  unfold returns_of. rewrite list_elem_of_omap. intros (m' & Hin & Hm').
  destruct m'; try discriminate; injection Hm' as <-; exact Hin.
Qed.

(** X1.  The value that [runServerWithProcessors] returns is the first
    non-nil error that a wrapper of [errgroup] handed to the group; it is
    an error that a [Run], a [Stop] or the server returned, and it is nil
    exactly when all of them returned nil.  It need not be the error that
    was returned first: the order of the wrappers decides. *)
Theorem group_returns_first_recorded_error args processors schedule r :
  runServerWithProcessors args processors schedule = Some r ->
  (processors <> [] -> r = first_error schedule) /\
  (r = None <-> Forall (fun m => returned_error m = None) schedule) /\
  (forall e, r = Some e -> exists m, m ∈ schedule /\ returned_error m = Some e).
Proof.
  intros Hr. unfold runServerWithProcessors in Hr.
  destruct processors as [|p processors'].
  - split; [congruence|].
    destruct (returns_of schedule) as [|m [|m' rest]] eqn:Hreturns; try discriminate;
      destruct m; try discriminate. injection Hr as <-.
    assert (Hin : ServerReturns err ∈ schedule).
    { apply returns_of_subset. rewrite Hreturns. apply elem_of_cons. auto. }
    split; [split|].
    + intros ->. apply Forall_forall. intros m Hm.
      apply returns_of_elem in Hm as [->|Hm]; [reflexivity|].
      rewrite Hreturns in Hm. apply list_elem_of_singleton in Hm. subst m. reflexivity.
    + intros Hall. rewrite Forall_forall in Hall. apply (Hall _ Hin).
    + intros e ->. exists (ServerReturns (Some e)). auto.
  - destruct (run args schedule (spawn (p :: processors'))) as [g|] eqn:Hrun;
      [|discriminate].
    simpl in Hr. unfold Wait in Hr. destruct (all_exited g) eqn:Hall; [|discriminate].
    injection Hr as <-.
    destruct (run_g_err args schedule _ g Hrun) as [Herr _].
    { simpl. intros [? ?]. discriminate. }
    simpl in Herr. split; [intros _; exact Herr|]. rewrite Herr. split; [split|].
    + intros Hnone. rewrite first_error_None in Hnone. apply Forall_forall. intros m Hm.
      destruct (return_of m) as [[who err]|] eqn:Hreturn.
      * rewrite (return_of_returned_error m who err Hreturn).
        destruct (returned_is_recorded args _ schedule g m who err Hrun Hm Hreturn)
          as [Hwaits|Hin].
        -- rewrite (all_exited_returned g Hall) in Hwaits. inversion Hwaits.
        -- apply (Hnone _ Hin).
      * rewrite returned_error_return_of, Hreturn. reflexivity.
    + intros Hall'. rewrite Forall_forall in Hall'. apply first_error_None.
      intros m Hm. destruct m as [i err|err|i|i err|who err|]; try reflexivity.
      destruct (recorded_was_returned args _ schedule g who err Hrun Hm)
        as (m' & Hin & Hreturn).
      simpl. rewrite <- (return_of_returned_error m' who err Hreturn). apply (Hall' _ Hin).
    + intros e He. apply first_error_Some in He as (m & Hm & Hhanded).
      destruct m as [i err|err|i|i err|who err|]; try discriminate. simpl in Hhanded.
      subst err.
      destruct (recorded_was_returned args _ schedule g who (Some e) Hrun Hm)
        as (m' & Hin & Hreturn).
      exists m'. split; [exact Hin|]. apply (return_of_returned_error m' who _ Hreturn).
Qed.

Lemma group_returns_first_recorded_error_witness :
  runServerWithProcessors (example_args true) example_processors
    (stop_error_first (errors_New "server failed") (errors_New "stop failed"))
  = Some (Some (errors_New "stop failed")) /\
  Some (errors_New "stop failed")
  = first_error (stop_error_first (errors_New "server failed") (errors_New "stop failed")) /\
  exists m,
    m ∈ stop_error_first (errors_New "server failed") (errors_New "stop failed") /\
    returned_error m = Some (errors_New "stop failed").
Proof.
  assert (Hr : runServerWithProcessors (example_args true) example_processors
                 (stop_error_first (errors_New "server failed") (errors_New "stop failed"))
               = Some (Some (errors_New "stop failed"))).
  { vm_compute. reflexivity. }
  destruct (group_returns_first_recorded_error (example_args true) example_processors _ _ Hr)
    as (Hfirst & _ & Hreturned).
  split; [exact Hr|]. split.
  - apply Hfirst. vm_compute. discriminate.
  - apply Hreturned. reflexivity.
Defined.

(** A stop goroutine that has left its receive has called [Stop]. *)
Lemma stop_called_step args m g g' :
  (forall i pc, stop_pc g !! i = Some pc -> pc <> StopBlocked -> i ∈ stop_order g) ->
  step args m g = Some g' ->
  forall i pc, stop_pc g' !! i = Some pc -> pc <> StopBlocked -> i ∈ stop_order g'.
Proof.
  intros Hinv Hstep.
  pose proof (step_observed args m g g' Hstep) as (Hobs & _ & Hpc).
  unfold stop_order in *.
  destruct m as [j err|err|j|j err|who err|].
  - rewrite Hobs, Hpc, stop_order_snoc, app_nil_r. exact Hinv.
  - destruct Hobs as [Hobs _]. rewrite Hobs, Hpc, stop_order_snoc, app_nil_r. exact Hinv.
  - destruct Hobs as (Hobs & _ & _ & Hblocked & Hpc').
    rewrite Hobs, Hpc', stop_order_snoc.
    intros i pc Hi Hne. apply elem_of_app.
    destruct (decide (i = j)) as [->|Hij].
    + right. apply list_elem_of_singleton. reflexivity.
    + left. rewrite list_lookup_insert_ne in Hi by congruence. eauto.
  - destruct Hobs as (Hobs & Hcalling & Hpc').
    rewrite Hobs, Hpc', stop_order_snoc, app_nil_r.
    intros i pc Hi Hne.
    destruct (decide (i = j)) as [->|Hij].
    + apply (Hinv j StopCalling Hcalling). discriminate.
    + rewrite list_lookup_insert_ne in Hi by congruence. eauto.
  - rewrite Hobs, Hpc. exact Hinv.
  - rewrite Hobs, Hpc. exact Hinv.
Qed.

(** X2.  When the group has wound down, so that [g.Wait()] returns, the
    [Stop] of every processor has been called exactly once, each time with
    the context [stopctx]: no processor is left unstopped, whether the
    shutdown was ordered by the caller or caused by a failure. *)
Theorem every_processor_is_stopped_once args processors schedule g r :
  run args schedule (spawn processors) = Some g ->
  Wait g = Some r ->
  stop_order g ≡ₚ seq 0 (length processors) /\
  forall i ctx, ObsStop i ctx ∈ observed g -> ctx = stopctx args.
Proof.
  intros Hrun Hwait.
  assert (Hinv : stop_invariant args g).
  { revert Hrun. apply (run_invariant args (stop_invariant args)).
    - intros m g0 g1. apply stop_invariant_step.
    - apply stop_invariant_spawn. }
  assert (Hcalled : forall i pc, stop_pc g !! i = Some pc -> pc <> StopBlocked ->
                                 i ∈ stop_order g).
  { revert Hrun.
    apply (run_invariant args
             (fun g => forall i pc, stop_pc g !! i = Some pc -> pc <> StopBlocked ->
                                    i ∈ stop_order g)).
    - intros m g0 g1. apply stop_called_step.
    - simpl. intros i pc Hi Hne. apply lookup_replicate in Hi as [-> _]. congruence. }
  destruct Hinv as (_ & _ & Hstops & Hnodup).
  pose proof (stop_pc_length args processors schedule g Hrun) as Hlen.
  split; [|intros i ctx Hin; apply (Hstops i ctx Hin)].
  apply NoDup_Permutation; [exact Hnodup|apply NoDup_seq|].
  intros i. rewrite elem_of_seq. split.
  - intros Hi. apply (stop_order_elem g i) in Hi as [ctx Hin].
    destruct (Hstops i ctx Hin) as [_ Hpc]. rewrite <- Hlen.
    split; [lia|]. destruct Hpc as [Hpc|Hpc]; apply lookup_lt_Some in Hpc; lia.
  - intros [_ Hi]. simpl in Hi. rewrite <- Hlen in Hi.
    destruct (lookup_lt_is_Some_2 _ _ Hi) as [pc Hpc].
    apply (Hcalled i pc Hpc).
    unfold Wait in Hwait. destruct (all_exited g) eqn:Hall; [|discriminate].
    unfold all_exited in Hall. apply andb_true_iff in Hall as [_ Hall].
    rewrite forallb_forall in Hall.
    assert (Hin : In pc (stop_pc g)).
    { apply list_elem_of_In. eapply list_elem_of_lookup_2. exact Hpc. }
    specialize (Hall pc Hin). destruct pc; discriminate.
Qed.

Lemma every_processor_is_stopped_once_witness :
  exists g,
    run (example_args true) (two_failures (errors_New "first") (errors_New "second"))
      (spawn example_processors) = Some g /\
    Wait g = Some (Some (errors_New "first")) /\
    stop_order g ≡ₚ seq 0 3.
Proof.
  destruct (run (example_args true) (two_failures (errors_New "first") (errors_New "second"))
              (spawn example_processors)) as [g|] eqn:Hrun;
    [|vm_compute in Hrun; discriminate].
  assert (Hwait : Wait g = Some (Some (errors_New "first"))).
  { vm_compute in Hrun. injection Hrun as <-. vm_compute. reflexivity. }
  exists g. split; [reflexivity|]. split; [exact Hwait|].
  apply (every_processor_is_stopped_once (example_args true) example_processors _ g _
           Hrun Hwait).
Defined.

Lemma step_ctx_cancelled args m g g' :
  (is_Some (g_err g) -> ctx_cancelled g = true) ->
  step args m g = Some g' ->
  (ctx_cancelled g' = true <->
   ctx_cancelled g = true \/ is_Some (handed_error m) \/ m = ParentCancels).
Proof.
  intros Hinv Hstep.
  assert (Hfinish : forall err g0,
            ctx_cancelled g0 = ctx_cancelled g -> g_err g0 = g_err g ->
            (ctx_cancelled (finish err g0) = true <->
             ctx_cancelled g = true \/ is_Some err \/ False)).
  { intros err g0 Hc He. unfold finish. rewrite He.
    destruct err as [e|], (g_err g) as [e0|] eqn:E; simpl; rewrite ?Hc.
    - split; [auto|]. intros _. apply Hinv. eauto.
    - split; [eauto|reflexivity].
    - split; [auto|]. intros [H|[[? H]|[]]]; [exact H|discriminate].
    - split; [auto|]. intros [H|[[? H]|[]]]; [exact H|discriminate]. }
  destruct m as [i err|err|i|i err|who err|]; simpl in *.
  - destruct (run_exited g !! i) as [[]|]; try discriminate. injection Hstep as <-. simpl.
    split; [auto|]. intros [H|[[? H]|H]]; [exact H|discriminate|discriminate].
  - destruct (server_exited g); try discriminate. injection Hstep as <-. simpl.
    split; [auto|]. intros [H|[[? H]|H]]; [exact H|discriminate|discriminate].
  - destruct (stop_pc g !! i) as [[]|]; try discriminate.
    destruct (serverStopped g); try discriminate. injection Hstep as <-. simpl.
    split; [auto|]. intros [H|[[? H]|H]]; [exact H|discriminate|discriminate].
  - destruct (stop_pc g !! i) as [[]|]; try discriminate. injection Hstep as <-. simpl.
    split; [auto|]. intros [H|[[? H]|H]]; [exact H|discriminate|discriminate].
  - destruct (bool_decide _); try discriminate. injection Hstep as <-.
    rewrite Hfinish by reflexivity. intuition discriminate.
  - injection Hstep as <-. simpl. split; auto.
Qed.

Lemma run_ctx_cancelled args schedule : forall g g',
  (is_Some (g_err g) -> ctx_cancelled g = true) ->
  run args schedule g = Some g' ->
  (ctx_cancelled g' = true <->
   ctx_cancelled g = true \/ is_Some (first_error schedule) \/ ParentCancels ∈ schedule).
Proof.
  induction schedule as [|m rest IH]; intros g g' Hinv Hrun; simpl in *.
  - injection Hrun as <-. split; [auto|].
    intros [H|[[? H]|H]]; [exact H|discriminate|inversion H].
  - destruct (step args m g) as [g1|] eqn:Hstep; [|discriminate].
    assert (Hinv1 : is_Some (g_err g1) -> ctx_cancelled g1 = true).
    { destruct (step_g_err args m g g1 Hstep) as (Herr & Hkeep & Hset).
      rewrite Herr. destruct (g_err g) as [e|] eqn:E.
      - intros _. apply Hkeep, Hinv. eauto.
      - intros Hsome. apply Hset; auto. }
    rewrite (IH g1 g' Hinv1 Hrun), (step_ctx_cancelled args m g g1 Hinv Hstep).
    rewrite elem_of_cons.
    destruct (handed_error m) as [e|] eqn:Hm.
    + split; [|intros _; left; right; left; eauto]. intros _. right. left. eauto.
    + split.
      * intros [[H|[[? H]|H]]|[H|H]]; auto; discriminate.
      * intros [H|[H|[H|H]]]; auto.
Qed.

(** X3.  While the group runs, its context, the one the server watches,
    is cancelled exactly when a non-nil error that a goroutine returned has
    been handed to the group, or the caller has cancelled its own context.
    A [Run] or a [Stop] that returns nil does not signal the server. *)
Theorem server_signalled_only_on_failure args processors schedule g :
  run args schedule (spawn processors) = Some g ->
  (ctx_cancelled g = true <->
   is_Some (first_error schedule) \/ ParentCancels ∈ schedule).
Proof.
  intros Hrun.
  rewrite (run_ctx_cancelled args schedule (spawn processors) g); [|..|exact Hrun].
  - simpl. split; [|auto]. intros [H|H]; [discriminate|exact H].
  - simpl. intros [? ?]. discriminate.
Qed.

Lemma server_signalled_only_on_failure_witness :
  exists g,
    run (example_args true)
      [RunReturns 0 None; GroupRecords (RunOf 0) None; RunReturns 2 None]
      (spawn example_processors) = Some g /\
    ctx_cancelled g = false.
Proof.
  destruct (run (example_args true)
              [RunReturns 0 None; GroupRecords (RunOf 0) None; RunReturns 2 None]
              (spawn example_processors)) as [g|] eqn:Hrun;
    [|vm_compute in Hrun; discriminate].
  exists g. split; [reflexivity|].
  destruct (ctx_cancelled g) eqn:Hc; [|reflexivity].
  apply (server_signalled_only_on_failure (example_args true) example_processors _ g Hrun)
    in Hc.
  destruct Hc as [[e He]|Hin]; [vm_compute in He; discriminate|].
  repeat (apply elem_of_cons in Hin as [Hin|Hin]; [discriminate|]). inversion Hin.
Defined.

(** ** What [wrapServer] and [newProcessors] leave behind *)

Section MoreMain.
Context (env : Externals).

(** X4.  The server parameters that [wrapServer] returns differ from the
    ones it was given in the batch processor only, the chain is the
    processors of the wrapped server followed by the batch processor that
    was there before, and every one of those processors emits to that
    earlier batch processor: what an aggregator or the sampler publishes
    does not pass through the chain again. *)
Theorem processors_emit_past_the_chain args runServer w w' args' run' :
  wrapServer env args runServer w = Returned w' (Ok (args', run')) ->
  exists processors,
    run' = wrappedRunServer runServer processors /\
    beater.BatchProcessor args'
    = Chained ((Named <$> processors) ++ [beater.BatchProcessor args]) /\
    Forall (fun p => emits_to (processor_ p) = beater.BatchProcessor args) processors /\
    beater.Config args' = beater.Config args /\
    beater.UUID_ args' = beater.UUID_ args /\
    beater.Namespace args' = beater.Namespace args /\
    beater.NewElasticsearchClient args' = beater.NewElasticsearchClient args.
Proof.
  intros H. rewrite wrapServer_run, newProcessors_run in H.
  destruct (txmetrics_invalid env _); [discriminate|].
  destruct (spanmetrics_invalid env _); [discriminate|].
  cbv zeta in H.
  destruct (config.Enabled _).
  - destruct (newTailSamplingProcessor env args (aggregators_built args w))
      as [reason|w'' [err|sampler]] eqn:E; try discriminate.
    destruct (samplingMonitoringRegistry w''); [|discriminate].
    destruct (newTailSamplingProcessor_Ok env args _ _ _ E)
      as (oid & es & db & rw & _ & _ & _ & ->).
    injection H as _ <- <-. eexists. split; [reflexivity|]. split; [reflexivity|].
    split; [|repeat split]. repeat constructor.
  - injection H as _ <- <-. eexists. split; [reflexivity|]. split; [reflexivity|].
    split; [|repeat split]. repeat constructor.
Qed.

(** X5.  [newProcessors] does not undo what it has done when a later step
    fails.  When the constructor of the sampler rejects the configuration
    it is handed, [newProcessors] returns the error, and yet the badger
    database and the storage that were handed to the constructor stay in
    their variables, and "txmetrics" stays registered for the transaction
    metrics aggregator of the failed attempt; the sampling registry is as
    before. *)
Theorem failed_sampler_is_not_rolled_back args w es err :
  let at_sampler := aggregators_built args w in
  txmetrics_invalid env (txmetrics_AggregatorConfig_literal args) = None ->
  spanmetrics_invalid env (spanmetrics_AggregatorConfig_literal args) = None ->
  config.Enabled (config.Tail (config.Sampling (beater.Config args))) = true ->
  beater.NewElasticsearchClient args
    (config.ESConfig (config.Tail (config.Sampling (beater.Config args)))) = Ok es ->
  storage_opens env args at_sampler ->
  sampling_invalid env (sampler_config args es at_sampler) = Some err ->
  exists w',
    newProcessors env args w = Returned w' (Err (errors_Wrapf_creating err samplerName)) /\
    badgerDB w' = Some (tail_database at_sampler) /\
    storage w' = Some (tail_storage at_sampler) /\
    sampling.DB (sampling.StorageCfg (sampler_config args es at_sampler))
    = tail_database at_sampler /\
    sampling.Storage (sampling.StorageCfg (sampler_config args es at_sampler))
    = tail_storage at_sampler /\
    aggregationMonitoringRegistry w' !! "txmetrics"
    = Some (FuncVar (processor_ (tx_aggregator args w))) /\
    samplingMonitoringRegistry w' = samplingMonitoringRegistry w.
Proof.
  intros at_sampler Htx Hspan Hon Hes Hopens Hreject. subst at_sampler.
  rewrite newProcessors_run, Htx, Hspan. cbv zeta. rewrite Hon.
  destruct (newTailSamplingProcessor_handed env args es _ Hes Hopens)
    as (w3 & -> & Hdb & Hrw & Hagg & Hsam & _).
  rewrite sampling_NewProcessor_run, Hreject.
  exists w3. split; [reflexivity|]. split; [exact Hdb|]. split; [exact Hrw|].
  split; [reflexivity|]. split; [reflexivity|].
  rewrite Hagg, Hsam. split; [apply lookup_insert_eq|reflexivity].
Qed.

(** X6.  With tail sampling enabled and no sampling registry,
    [newProcessors] never returns processors: it returns an error or it
    panics.  When the aggregators are accepted, the client is created, the
    storage opens and the sampler's constructor accepts the configuration
    it is handed, it panics with a nil pointer dereference. *)
Theorem no_processors_without_sampling_registry args w :
  config.Enabled (config.Tail (config.Sampling (beater.Config args))) = true ->
  samplingMonitoringRegistry w = None ->
  (forall w' processors, newProcessors env args w <> Returned w' (Ok processors)) /\
  (forall es,
     txmetrics_invalid env (txmetrics_AggregatorConfig_literal args) = None ->
     spanmetrics_invalid env (spanmetrics_AggregatorConfig_literal args) = None ->
     beater.NewElasticsearchClient args
       (config.ESConfig (config.Tail (config.Sampling (beater.Config args)))) = Ok es ->
     storage_opens env args (aggregators_built args w) ->
     sampling_invalid env (sampler_config args es (aggregators_built args w)) = None ->
     newProcessors env args w = Panicked "nil pointer dereference").
Proof.
  intros Hon Hnil. split.
  - intros w' processors. rewrite newProcessors_run, Hon.
    destruct (txmetrics_invalid env _); [discriminate|].
    destruct (spanmetrics_invalid env _); [discriminate|]. cbv zeta.
    destruct (newTailSamplingProcessor_returns env args (aggregators_built args w))
      as (w1 & r1 & E & _ & Hsame & _).
    rewrite E. destruct r1 as [err|sampler]; [discriminate|].
    simpl in Hsame. rewrite Hsame, Hnil. discriminate.
  - intros es Htx Hspan Hes Hopens Haccept.
    rewrite newProcessors_run, Hon, Htx, Hspan. cbv zeta.
    destruct (newTailSamplingProcessor_handed env args es _ Hes Hopens)
      as (w3 & -> & _ & _ & _ & Hsam & _).
    rewrite sampling_NewProcessor_run, Haccept. simpl.
    simpl in Hsam. rewrite Hsam, Hnil. reflexivity.
Qed.

End MoreMain.

Lemma processors_emit_past_the_chain_witness :
  exists w' args' run' processors,
    wrapServer accepting (example_args true) (intakeServer 0) fresh_process
    = Returned w' (Ok (args', run')) /\
    run' = wrappedRunServer (intakeServer 0) processors /\
    length processors = 3%nat /\
    Forall (fun p => emits_to (processor_ p) = External 0) processors.
Proof.
  destruct (wrapServer accepting (example_args true) (intakeServer 0) fresh_process)
    as [reason|w' [err|[args' run']]] eqn:E; try (vm_compute in E; discriminate).
  destruct (processors_emit_past_the_chain accepting _ _ _ _ _ _ E)
    as (processors & Hrun & Hchain & Hemit & _).
  exists w', args', run', processors. split; [reflexivity|]. split; [exact Hrun|].
  split; [|exact Hemit].
  vm_compute in E. injection E as _ Hargs _. subst args'. simpl in Hchain.
  injection Hchain as Hchain. apply (f_equal length) in Hchain.
  rewrite length_app, length_fmap in Hchain. simpl in Hchain. lia.
Defined.

Lemma failed_sampler_is_not_rolled_back_witness :
  exists w',
    newProcessors validating out_of_range_args fresh_process
    = Returned w' (Err (errors_Wrapf_creating
                          (errors_New "Policy: SampleRate unspecified or out of range")
                          samplerName)) /\
    badgerDB w' = Some {| db_oid := 2; db_dir := "home/data/tail_sampling" |} /\
    storage w'
    = Some {| rw_oid := 3;
              rw_db := {| db_oid := 2; db_dir := "home/data/tail_sampling" |};
              rw_codec := JSONCodec |} /\
    opened_databases w' = [{| db_oid := 2; db_dir := "home/data/tail_sampling" |}].
Proof.
  destruct (failed_sampler_is_not_rolled_back validating out_of_range_args
              fresh_process {| elasticsearch.handle := 0 |}
              (errors_New "Policy: SampleRate unspecified or out of range"))
    as (w' & E & Hdb & Hrw & _); try reflexivity.
  { intros _. reflexivity. }
  exists w'. split; [exact E|]. split; [exact Hdb|]. split; [exact Hrw|].
  vm_compute in E. injection E as <-. vm_compute. reflexivity.
Defined.

Lemma no_processors_without_sampling_registry_witness :
  newProcessors accepting (example_args true)
    (with_samplingMonitoringRegistry None fresh_process)
  = Panicked "nil pointer dereference".
Proof.
  destruct (no_processors_without_sampling_registry accepting (example_args true)
              (with_samplingMonitoringRegistry None fresh_process) eq_refl eq_refl)
    as [_ Hpanics].
  apply (Hpanics {| elasticsearch.handle := 0 |}); try reflexivity.
  intros _. reflexivity.
Defined.

(** ** Process exit *)

Section ExitFacts.
Context (badger_Close : BadgerDB -> list Closing -> option error).

Lemma cleanup_run p :
  cleanup badger_Close p =
  let storages := option_list (storage (globals p)) in
  let after_storage := closings p ++ (ClosedStorage <$> storages) in
  match badgerDB (globals p) with
  | Some db =>
      let err := badger_Close db after_storage in
      ({| globals := globals p; closings := after_storage ++ [ClosedBadger db err] |},
       (fun e => multierror_Error [plainError e]) <$> err)
  | None => ({| globals := globals p; closings := after_storage |}, None)
  end.
Proof.
  destruct p as [w cs]. unfold cleanup, closeStorage, closeBadger. simpl.
  destruct (storage w) as [rw|]; simpl; destruct (badgerDB w) as [db|]; simpl;
    rewrite ?app_nil_r; try reflexivity.
  - destruct (badger_Close db (cs ++ [ClosedStorage rw])); reflexivity.
  - destruct (badger_Close db cs); reflexivity.
Qed.

(** X7.  [cleanup] closes what the process opened.  After any sequence of
    calls of the storage functions, from a state in which the variables
    account for everything opened and built, [cleanup] closes every storage
    facade that was built and then every database that was opened, each
    once, and nothing else; it leaves the variables as they are, and its
    result is nil unless closing the database failed, in which case it is
    a multierror holding that error alone. *)
Theorem cleanup_closes_what_was_opened env cs w w' answers p err :
  singletons w ->
  storage_calls env cs w = Returned w' answers ->
  cleanup badger_Close {| globals := w'; closings := [] |} = (p, err) ->
  exists close_err,
    closings p = (ClosedStorage <$> built_storages w')
                 ++ ((fun db => ClosedBadger db close_err) <$> opened_databases w') /\
    err = (fun e => multierror_Error [plainError e]) <$> close_err /\
    globals p = w'.
Proof.
  intros Hw Hcalls Hcleanup.
  destruct (storage_calls_sound env cs w Hw) as (w1 & answers1 & E & [Hopened Hbuilt] & _).
  rewrite Hcalls in E. injection E as <- <-.
  rewrite cleanup_run in Hcleanup. simpl in Hcleanup.
  rewrite Hopened, Hbuilt.
  destruct (badgerDB w') as [db|]; injection Hcleanup as <- <-.
  - eexists. split; [reflexivity|]. split; reflexivity.
  - exists None. simpl. rewrite app_nil_r. repeat split.
Qed.

(** X8.  Closing does not clear the variables.  After [cleanup] the
    database variable still holds the handle that was just closed:
    [getBadgerDB] returns that closed handle and opens nothing, and a
    second [cleanup] closes the same database again. *)
Theorem closed_handle_stays_in_use env storageDir w db p err :
  badgerDB w = Some db ->
  cleanup badger_Close {| globals := w; closings := [] |} = (p, err) ->
  globals p = w /\
  closed_databases (closings p) = [db] /\
  getBadgerDB env storageDir (globals p) = Returned (globals p) (Ok db) /\
  closed_databases (closings (fst (cleanup badger_Close p))) = [db; db].
Proof.
  intros Hdb Hcleanup. rewrite cleanup_run in Hcleanup. simpl in Hcleanup.
  rewrite Hdb in Hcleanup. injection Hcleanup as <- <-. simpl.
  split; [reflexivity|].
  assert (Hstorages : forall (l : list ShardedReadWriter),
            closed_databases (ClosedStorage <$> l) = []).
  { intros l. induction l as [|rw l IH]; [reflexivity|exact IH]. }
  split; [|split].
  - unfold closed_databases in *. rewrite omap_app, Hstorages. reflexivity.
  - rewrite getBadgerDB_run, Hdb. reflexivity.
  - rewrite cleanup_run. simpl. rewrite Hdb. simpl.
    unfold closed_databases in *. rewrite !omap_app, !Hstorages. reflexivity.
Qed.

(** X9.  [Main] always runs [cleanup] once the command has returned,
    whatever the command returned, and the process exits with status 0
    exactly when the command returned nil and closing the database did not
    fail.  When closing fails, the close error is appended after the errors
    of the command; when it does not, the result is the command's own. *)
Theorem Main_reports_command_and_close Execute w w' result :
  Execute w = Returned w' result ->
  exists p close_err final,
    cleanup badger_Close {| globals := w'; closings := [] |}
    = (p, (fun e => multierror_Error [plainError e]) <$> close_err) /\
    Main badger_Close Execute w = Returned (globals p) (closings p, final) /\
    final = match close_err with
            | Some e => Some (multierror_Error (multierror_flatten result ++ [plainError e]))
            | None => result
            end /\
    (main_exit_status final = 0 <-> result = None /\ close_err = None).
Proof.
  intros Hexec. unfold Main. rewrite Hexec, cleanup_run. simpl.
  destruct (badgerDB w') as [db|].
  - destruct (badger_Close db _) as [e|]; simpl.
    + eexists _, (Some e), _. split; [reflexivity|].
      split; [reflexivity|]. split; [reflexivity|]. simpl. split; [discriminate|].
      intros [_ H]; discriminate.
    + eexists _, None, _. split; [reflexivity|].
      split; [reflexivity|]. split; [reflexivity|].
      destruct result; simpl; split; try discriminate; auto. intros [H _]; discriminate.
  - exists {| globals := w'; closings := [] ++ (ClosedStorage <$> option_list (storage w')) |},
           None, result.
    split; [reflexivity|]. split; [reflexivity|]. split; [reflexivity|].
    destruct result; simpl; split; try discriminate; auto. intros [H _]; discriminate.
Qed.

End ExitFacts.

Lemma cleanup_closes_what_was_opened_witness :
  exists w' answers p err close_err,
    storage_calls accepting [CallNewTailSamplingProcessor (example_args true)] fresh_process
    = Returned w' answers /\
    cleanup (fun _ _ => Some (errors_New "close failed")) {| globals := w'; closings := [] |}
    = (p, err) /\
    closings p = (ClosedStorage <$> built_storages w')
                 ++ ((fun db => ClosedBadger db close_err) <$> opened_databases w') /\
    err = (fun e => multierror_Error [plainError e]) <$> close_err /\
    globals p = w'.
Proof.
  destruct (storage_calls accepting [CallNewTailSamplingProcessor (example_args true)]
              fresh_process) as [reason|w' answers] eqn:E;
    [vm_compute in E; discriminate|].
  destruct (cleanup (fun _ _ => Some (errors_New "close failed"))
              {| globals := w'; closings := [] |}) as [p err] eqn:Ec.
  destruct (cleanup_closes_what_was_opened (fun _ _ => Some (errors_New "close failed"))
              accepting [CallNewTailSamplingProcessor (example_args true)]
              fresh_process w' answers p err) as (close_err & H1 & H2 & H3);
    [split; reflexivity|exact E|exact Ec|].
  exists w', answers, p, err, close_err. auto.
Defined.

Lemma closed_handle_stays_in_use_witness :
  let db := {| db_oid := 0; db_dir := "home/data/tail_sampling" |} in
  let w := with_badgerDB (Some db) fresh_process in
  exists p err,
    cleanup (fun _ _ => None) {| globals := w; closings := [] |} = (p, err) /\
    globals p = w /\
    closed_databases (closings p) = [db] /\
    getBadgerDB accepting "elsewhere" (globals p) = Returned (globals p) (Ok db) /\
    closed_databases (closings (fst (cleanup (fun _ _ => None) p))) = [db; db].
Proof.
  intros db w.
  destruct (cleanup (fun _ _ => None) {| globals := w; closings := [] |}) as [p err] eqn:Ec.
  exists p, err. split; [reflexivity|].
  apply (closed_handle_stays_in_use (fun _ _ => None) accepting "elsewhere" w db p err);
    [reflexivity|exact Ec].
Defined.

Lemma Main_reports_command_and_close_witness :
  let Execute : Go (option exitError) :=
    fun w => Returned w (Some (plainError (errors_New "command failed"))) in
  exists p close_err final,
    cleanup (fun _ _ => None) {| globals := fresh_process; closings := [] |}
    = (p, (fun e => multierror_Error [plainError e]) <$> close_err) /\
    Main (fun _ _ => None) Execute fresh_process
    = Returned (globals p) (closings p, final) /\
    final = match close_err with
            | Some e =>
                Some (multierror_Error
                        (multierror_flatten
                           (Some (plainError (errors_New "command failed")))
                         ++ [plainError e]))
            | None => Some (plainError (errors_New "command failed"))
            end /\
    (main_exit_status final = 0
     <-> Some (plainError (errors_New "command failed")) = None /\ close_err = None).
Proof.
  intros Execute.
  apply (Main_reports_command_and_close (fun _ _ => None) Execute fresh_process fresh_process
           (Some (plainError (errors_New "command failed")))).
  reflexivity.
Defined.

(** ** Splitting a bulk request into documents *)

Lemma int_add_small a b :
  - 2 ^ 63 <= a + b < 2 ^ 63 -> int_add a b = a + b.
Proof.
  intros H. unfold int_add, int_wrap.
  rewrite Z.mod_small by lia. lia.
Qed.

Lemma len_app {A : Type} (l1 l2 : list A) : len (l1 ++ l2) = len l1 + len l2.
Proof. unfold len. rewrite length_app. lia. Qed.

Lemma len_cons {A : Type} (x : A) (l : list A) : len (x :: l) = 1 + len l.
Proof. unfold len. simpl. lia. Qed.

Lemma len_nonneg {A : Type} (l : list A) : 0 <= len l.
Proof. unfold len. lia. Qed.

Lemma is_newline_iff x : Byte.eqb x newline = true <-> x = newline.
Proof. split; [apply Byte.byte_dec_bl|apply Byte.byte_dec_lb]. Qed.

(** [bytes.IndexByte]: the position of the first marker. *)
Lemma bytes_IndexByte_first l1 rest :
  newline ∉ l1 -> bytes_IndexByte (l1 ++ newline :: rest) newline = len l1.
Proof.
  induction l1 as [|x l1 IH]; intros Hnot; simpl.
  - reflexivity.
  - apply not_elem_of_cons in Hnot as [Hx Hnot].
    destruct (Byte.eqb x newline) eqn:E.
    + apply is_newline_iff in E. congruence.
    + rewrite (IH Hnot), len_cons.
      pose proof (len_nonneg l1). destruct (len l1 <? 0) eqn:Hlt; lia.
Qed.

Lemma bytes_IndexByte_none l :
  newline ∉ l -> bytes_IndexByte l newline = -1.
Proof.
  induction l as [|x l IH]; intros Hnot; simpl; [reflexivity|].
  apply not_elem_of_cons in Hnot as [Hx Hnot].
  destruct (Byte.eqb x newline) eqn:E.
  - apply is_newline_iff in E. congruence.
  - rewrite (IH Hnot). reflexivity.
Qed.

(** A buffer either has no marker or splits at its first one. *)
Lemma first_newline (data : list Byte.byte) :
  newline ∉ data \/
  exists l1 rest, data = l1 ++ newline :: rest /\ (newline ∉ l1).
Proof.
  induction data as [|x data IH].
  - left. apply not_elem_of_nil.
  - destruct (Byte.eqb x newline) eqn:E.
    + apply is_newline_iff in E. subst x. right. exists [], data.
      split; [reflexivity|apply not_elem_of_nil].
    + assert (x <> newline) by (intros ->; rewrite (Byte.byte_dec_lb eq_refl) in E;
                                 discriminate).
      destruct IH as [Hnot|(l1 & rest & -> & Hnot)].
      * left. apply not_elem_of_cons. auto.
      * right. exists (x :: l1), rest. split; [reflexivity|].
        apply not_elem_of_cons. auto.
Qed.

Lemma count_newlines_app l1 l2 :
  count_newlines (l1 ++ l2) = (count_newlines l1 + count_newlines l2)%nat.
Proof. induction l1 as [|x l1 IH]; simpl; [reflexivity|rewrite IH; lia]. Qed.

Lemma count_newlines_none l : newline ∉ l -> count_newlines l = 0%nat.
Proof.
  induction l as [|x l IH]; intros Hnot; simpl; [reflexivity|].
  apply not_elem_of_cons in Hnot as [Hx Hnot].
  destruct (Byte.eqb x newline) eqn:E.
  - apply is_newline_iff in E. congruence.
  - rewrite (IH Hnot). reflexivity.
Qed.

(** The shapes of a buffer: fewer than two markers, or a first document
    and a rest. *)
Lemma buffer_shape (data : list Byte.byte) :
  (newline ∉ data) \/
  (exists l1 l2, data = l1 ++ newline :: l2 /\ (newline ∉ l1) /\ (newline ∉ l2)) \/
  (exists metadata source rest,
     data = document metadata source ++ rest /\
     (newline ∉ metadata) /\ (newline ∉ source)).
Proof.
  destruct (first_newline data) as [Hnot|(l1 & rest1 & -> & Hnot1)]; [auto|].
  right. destruct (first_newline rest1) as [Hnot2|(l2 & rest2 & -> & Hnot2)].
  - left. eauto.
  - right. exists l1, l2, rest2. split; [|auto].
    unfold document. rewrite <- !app_assoc. simpl. rewrite <- app_assoc. reflexivity.
Qed.

(** The first document of a buffer is handed out, whether or not the input
    has ended. *)
Lemma split_document metadata source rest atEOF :
  newline ∉ metadata -> newline ∉ source ->
  len (document metadata source ++ rest) < 2 ^ 63 ->
  splitMetadataAndSource (document metadata source ++ rest) atEOF
  = Some (len (document metadata source), Some (document metadata source), None).
Proof.
  intros Hm Hs Hlen.
  assert (Hdata : document metadata source ++ rest
                  = metadata ++ newline :: (source ++ newline :: rest)).
  { unfold document. rewrite <- !app_assoc. simpl. rewrite <- app_assoc. reflexivity. }
  assert (Hdoc : len (document metadata source) = len metadata + len source + 2).
  { unfold document. rewrite len_app, len_cons, len_app, len_cons. unfold len. simpl. lia. }
  rewrite len_app, Hdoc in Hlen.
  pose proof (len_nonneg metadata). pose proof (len_nonneg source).
  pose proof (len_nonneg rest).
  assert (Hlendata : len (document metadata source ++ rest)
                     = len metadata + len source + 2 + len rest).
  { rewrite len_app, Hdoc. reflexivity. }
  assert (Hi : bytes_IndexByte (document metadata source ++ rest) newline = len metadata).
  { rewrite Hdata. apply bytes_IndexByte_first, Hm. }
  assert (Hdrop : drop (Z.to_nat (len metadata + 1)) (document metadata source ++ rest)
                  = source ++ newline :: rest).
  { rewrite Hdata. unfold len.
    replace (Z.to_nat (Z.of_nat (length metadata) + 1)) with (length metadata + 1)%nat by lia.
    rewrite <- drop_drop, drop_app_length. reflexivity. }
  assert (Htake : take (Z.to_nat (len metadata + len source + 2))
                    (document metadata source ++ rest)
                  = document metadata source).
  { rewrite <- Hdoc. unfold len. rewrite Nat2Z.id, take_app_length. reflexivity. }
  unfold splitMetadataAndSource, slice_from, slice_to.
  rewrite Hi, Hlendata.
  rewrite (int_add_small (len metadata) 1) by lia.
  replace (len metadata + len source + 2 + len rest =? 0) with false by lia.
  rewrite andb_false_r.
  replace (len metadata >=? 0) with true by lia.
  replace (len metadata + len source + 2 + len rest >? len metadata + 1) with true by lia.
  replace ((0 <=? len metadata + 1)
           && (len metadata + 1 <=? len metadata + len source + 2 + len rest))
    with true by lia.
  cbv beta iota zeta.
  rewrite Hdrop, (bytes_IndexByte_first source _ Hs).
  rewrite (int_add_small (len metadata) (len source)) by lia.
  rewrite (int_add_small (len metadata + len source) 2) by lia.
  replace (len source >=? 0) with true by lia.
  replace ((0 <=? len metadata + len source + 2)
           && (len metadata + len source + 2 <=? len metadata + len source + 2 + len rest))
    with true by lia.
  cbv beta iota zeta.
  rewrite Htake, Hdoc. reflexivity.
Qed.

(** With fewer than two markers there is no document to hand out. *)
Lemma split_incomplete data atEOF :
  (count_newlines data < 2)%nat ->
  len data < 2 ^ 63 ->
  splitMetadataAndSource data atEOF
  = if atEOF
    then match data with
         | [] => Some (0, None, None)
         | _ :: _ => Some (len data, Some data, None)
         end
    else Some (0, None, None).
Proof.
  intros Hcount Hlen.
  assert (Hfirst : (if atEOF && (len data =? 0) then Some (0, None, None)
                    else if atEOF then Some (len data, Some data, None)
                         else Some (0, None, None))
                   = if atEOF
                     then match data with
                          | [] => Some (0, None, None)
                          | _ :: _ => Some (len data, Some data, None)
                          end
                     else Some (0, @None (list Byte.byte), @None error)).
  { destruct atEOF; [|reflexivity]. destruct data; [reflexivity|].
    rewrite len_cons. pose proof (len_nonneg data).
    replace (1 + len data =? 0) with false by lia. reflexivity. }
  rewrite <- Hfirst. unfold splitMetadataAndSource.
  destruct (atEOF && (len data =? 0)) eqn:Hempty; [reflexivity|].
  destruct (buffer_shape data)
    as [Hnone|[(l1 & l2 & -> & H1 & H2)|(metadata & source & rest & -> & Hm & Hs)]].
  - rewrite (bytes_IndexByte_none data Hnone). reflexivity.
  - rewrite (bytes_IndexByte_first l1 l2 H1).
    pose proof (len_nonneg l1). pose proof (len_nonneg l2).
    rewrite len_app, len_cons in Hlen.
    replace (len l1 >=? 0) with true by lia.
    rewrite (int_add_small (len l1) 1) by lia.
    destruct (len (l1 ++ newline :: l2) >? len l1 + 1) eqn:Hmore; [|reflexivity].
    assert (Hdrop : drop (Z.to_nat (len l1 + 1)) (l1 ++ newline :: l2) = l2).
    { unfold len.
      replace (Z.to_nat (Z.of_nat (length l1) + 1)) with (length l1 + 1)%nat by lia.
      rewrite <- drop_drop, drop_app_length. reflexivity. }
    unfold slice_from. rewrite len_app, len_cons.
    replace ((0 <=? len l1 + 1) && (len l1 + 1 <=? len l1 + (1 + len l2))) with true by lia.
    cbv beta iota zeta.
    rewrite Hdrop, (bytes_IndexByte_none l2 H2). reflexivity.
  - exfalso. unfold document in Hcount.
    rewrite !count_newlines_app in Hcount. simpl in Hcount.
    rewrite count_newlines_app in Hcount. simpl in Hcount.
    rewrite ?(Byte.byte_dec_lb (eq_refl newline)) in Hcount. lia.
Qed.

Lemma count_newlines_few data :
  (newline ∉ data) \/
  (exists l1 l2, data = l1 ++ newline :: l2 /\ (newline ∉ l1) /\ (newline ∉ l2)) ->
  (count_newlines data < 2)%nat.
Proof.
  intros [Hnone|(l1 & l2 & -> & H1 & H2)].
  - rewrite (count_newlines_none data Hnone). lia.
  - rewrite count_newlines_app. simpl.
    rewrite (count_newlines_none l1 H1), (count_newlines_none l2 H2). 
    rewrite ?(Byte.byte_dec_lb (eq_refl newline)). lia.
Qed.

Lemma take_len {A : Type} (l rest : list A) :
  take (Z.to_nat (len l)) (l ++ rest) = l.
Proof. unfold len. rewrite Nat2Z.id. apply take_app_length. Qed.

Lemma len_document metadata source :
  len (document metadata source) = len metadata + len source + 2.
Proof.
  unfold document. rewrite len_app, len_cons, len_app, len_cons. unfold len. simpl. lia.
Qed.

(** A buffer has fewer than two markers or starts with a document. *)
Lemma buffer_cases (data : list Byte.byte) :
  (count_newlines data < 2)%nat \/
  (exists metadata source rest,
     data = document metadata source ++ rest /\
     (newline ∉ metadata) /\ (newline ∉ source)).
Proof.
  destruct (buffer_shape data) as [H|[H|H]]; [left|left|right; exact H];
    apply count_newlines_few; auto.
Qed.

(** X10. [splitMetadataAndSource] never reaches outside its buffer and never
    reports an error: on every buffer (of a length a Go slice can have) it
    returns, with a nil error, an [advance] between 0 and [len(data)]; a token
    it hands out is exactly the [advance] bytes at the front of the buffer and
    is never empty, and without a token nothing is consumed. *)
Theorem split_consumes_a_prefix data atEOF :
  len data < 2 ^ 63 ->
  exists advance token,
    splitMetadataAndSource data atEOF = Some (advance, token, None) /\
    0 <= advance <= len data /\
    match token with
    | Some t => 0 < advance /\ t = take (Z.to_nat advance) data
    | None => advance = 0
    end.
Proof.
  intros Hlen. pose proof (len_nonneg data) as Hnonneg.
  destruct (buffer_cases data) as [Hfew|(metadata & source & rest & -> & Hm & Hs)].
  - rewrite (split_incomplete data atEOF Hfew Hlen).
    destruct atEOF.
    + destruct data as [|x data].
      * exists 0, None. split; [reflexivity|]. split; [lia|reflexivity].
      * exists (len (x :: data)), (Some (x :: data)).
        split; [reflexivity|]. split; [lia|].
        pose proof (len_cons x data). pose proof (len_nonneg data).
        split; [lia|].
        unfold len. rewrite Nat2Z.id. symmetry. apply firstn_all.
    + exists 0, None. split; [reflexivity|]. split; [lia|reflexivity].
  - rewrite (split_document metadata source rest atEOF Hm Hs Hlen).
    exists (len (document metadata source)), (Some (document metadata source)).
    split; [reflexivity|].
    pose proof (len_nonneg metadata). pose proof (len_nonneg source).
    pose proof (len_nonneg rest).
    rewrite len_app. rewrite take_len. rewrite len_document.
    split; [lia|]. split; [lia|reflexivity].
Qed.

Lemma split_consumes_a_prefix_witness :
  len example_bulk_body < 2 ^ 63 /\
  exists advance token,
    splitMetadataAndSource example_bulk_body false = Some (advance, token, None) /\
    0 <= advance <= len example_bulk_body /\
    match token with
    | Some t => 0 < advance /\ t = take (Z.to_nat advance) example_bulk_body
    | None => advance = 0
    end.
Proof.
  split; [reflexivity|].
  apply (split_consumes_a_prefix example_bulk_body false). reflexivity.
Defined.

(** X11. A buffer that starts with a complete document, that is a metadata
    line and a source line each closed by its end-of-line marker, gives that
    document as the token, both markers included, and consumes exactly its
    bytes; what follows the document in the buffer and whether the input has
    ended make no difference. *)
Theorem first_document_is_handed_out metadata source rest atEOF :
  newline ∉ metadata -> newline ∉ source ->
  len (document metadata source ++ rest) < 2 ^ 63 ->
  splitMetadataAndSource (document metadata source ++ rest) atEOF
  = Some (len metadata + len source + 2, Some (metadata ++ newline :: source ++ [newline]), None).
Proof.
  intros Hm Hs Hlen.
  rewrite (split_document metadata source rest atEOF Hm Hs Hlen), len_document.
  reflexivity.
Qed.

Lemma first_document_is_handed_out_witness :
  splitMetadataAndSource
    (document [Byte.x7b; Byte.x7d] [Byte.x61] ++ [Byte.x7b; Byte.x7d; newline; Byte.x64])
    false
  = Some (len [Byte.x7b; Byte.x7d] + len [Byte.x61] + 2,
          Some ([Byte.x7b; Byte.x7d] ++ newline :: [Byte.x61] ++ [newline]), None).
Proof.
  apply (first_document_is_handed_out [Byte.x7b; Byte.x7d] [Byte.x61]
           [Byte.x7b; Byte.x7d; newline; Byte.x64] false).
  - rewrite !not_elem_of_cons. repeat split; try discriminate. apply not_elem_of_nil.
  - rewrite !not_elem_of_cons. repeat split; try discriminate. apply not_elem_of_nil.
  - reflexivity.
Defined.

(** X12. Before the end of the input the function asks for more data (no
    token, nothing consumed) exactly when the buffer holds fewer than two
    end-of-line markers. *)
Theorem more_data_requested_iff_incomplete data :
  len data < 2 ^ 63 ->
  splitMetadataAndSource data false = Some (0, None, None)
  <-> (count_newlines data < 2)%nat.
Proof.
  intros Hlen. split.
  - intros Hsplit.
    destruct (buffer_cases data) as [Hfew|(metadata & source & rest & -> & Hm & Hs)];
      [exact Hfew|].
    rewrite (split_document metadata source rest false Hm Hs Hlen) in Hsplit.
    discriminate.
  - intros Hfew. apply (split_incomplete data false Hfew Hlen).
Qed.

Lemma more_data_requested_iff_incomplete_witness :
  splitMetadataAndSource [Byte.x7b; Byte.x7d; newline; Byte.x64] false
  = Some (0, None, None)
  <-> (count_newlines [Byte.x7b; Byte.x7d; newline; Byte.x64] < 2)%nat.
Proof.
  apply (more_data_requested_iff_incomplete [Byte.x7b; Byte.x7d; newline; Byte.x64]).
  reflexivity.
Defined.

(** X13. At the end of the input a non-empty rest with fewer than two
    end-of-line markers (a lone metadata line, or a last line that is not
    terminated) is handed out whole, as it is: nothing of the input is
    dropped, and the token is then not a complete document. *)
Theorem rest_is_handed_out_at_EOF data :
  len data < 2 ^ 63 ->
  (count_newlines data < 2)%nat ->
  data <> [] ->
  splitMetadataAndSource data true = Some (len data, Some data, None).
Proof.
  intros Hlen Hfew Hdata.
  rewrite (split_incomplete data true Hfew Hlen).
  destruct data; [congruence|reflexivity].
Qed.

Lemma rest_is_handed_out_at_EOF_witness :
  splitMetadataAndSource [Byte.x7b; Byte.x7d; newline; Byte.x64] true
  = Some (len [Byte.x7b; Byte.x7d; newline; Byte.x64],
          Some [Byte.x7b; Byte.x7d; newline; Byte.x64], None).
Proof.
  apply (rest_is_handed_out_at_EOF [Byte.x7b; Byte.x7d; newline; Byte.x64]).
  - reflexivity.
  - vm_compute. lia.
  - discriminate.
Defined.

(** X14. A token handed out before the end of the input does not depend on
    how much of the input had been read: with any further bytes appended to
    the buffer, and whether or not the input has ended by then, the function
    hands out the same token and consumes the same number of bytes. *)
Theorem token_does_not_depend_on_later_input data more advance token atEOF :
  len (data ++ more) < 2 ^ 63 ->
  splitMetadataAndSource data false = Some (advance, Some token, None) ->
  splitMetadataAndSource (data ++ more) atEOF = Some (advance, Some token, None).
Proof.
  intros Hlen Hsplit.
  assert (Hlen' : len data < 2 ^ 63).
  { rewrite len_app in Hlen. pose proof (len_nonneg more). lia. }
  destruct (buffer_cases data) as [Hfew|(metadata & source & rest & -> & Hm & Hs)].
  - rewrite (split_incomplete data false Hfew Hlen') in Hsplit. discriminate.
  - rewrite (split_document metadata source rest false Hm Hs Hlen') in Hsplit.
    rewrite <- Hsplit. rewrite <- app_assoc in *.
    apply (split_document metadata source (rest ++ more) atEOF Hm Hs Hlen).
Qed.

Lemma token_does_not_depend_on_later_input_witness :
  splitMetadataAndSource
    (document [Byte.x7b; Byte.x7d] [Byte.x61] ++ [Byte.x7b; Byte.x7d; newline; Byte.x64])
    true
  = Some (5, Some (document [Byte.x7b; Byte.x7d] [Byte.x61]), None).
Proof.
  apply (token_does_not_depend_on_later_input
           (document [Byte.x7b; Byte.x7d] [Byte.x61])
           [Byte.x7b; Byte.x7d; newline; Byte.x64] 5
           (document [Byte.x7b; Byte.x7d] [Byte.x61]) true).
  - reflexivity.
  - reflexivity.
Defined.
